(** * gbaspritenav: the tile decoder of the GBA sprite navigator

    A shallow embedding of the decoding core of [gbaspritenav.py]
    ([cut], [Palette], [Image], [Sprite], [ROM.search]) together with the
    properties its specification states about it.

    Conventions of the embedding:
    - a Python [bytes] object is a [list byte]; the integer value of a byte
      is [byte_val b : Z], on which the masks and shifts of the source are
      written with [Z.land] and [Z.shiftr];
    - sizes, offsets, counts and list positions are [nat]: the navigator only
      feeds non-negative numbers to the decoder;
    - a Python exception is a constructor of [exn]; a computation that may
      raise returns a [result];
    - the open file object is a record with the contents, the cursor and the
      log of the reads issued so far, threaded explicitly. *)

From Stdlib Require Import String Strings.Byte.
From Stdlib Require HexString Permutation.
From Stdlib Require Import List ZArith Lia Bool PeanoNat.
Import ListNotations.

Set Implicit Arguments.

(** ** Python values, exceptions and builtins *)

Module Py.

(** The exceptions that the modelled code can meet. *)
Inductive exn : Set :=
| IndexError          (* sequence subscript out of range *)
| ValueError          (* range() step of zero, bytearray() item out of range *)
| StructError         (* struct.error: buffer of the wrong size *)
| AttributeError      (* method call on None *)
| FileNotFoundError   (* open(): no such file *)
| PermissionError     (* open(): access denied *)
| IsADirectoryError.  (* open(): the path is a directory *)

Inductive result (A : Type) : Type :=
| Ok (a : A)
| Raise (e : exn).

Arguments Ok {A} a.
Arguments Raise {A} e.

Definition bind {A B} (m : result A) (k : A -> result B) : result B :=
  match m with
  | Ok a => k a
  | Raise e => Raise e
  end.

(** [[f(x) for x in l]] where [f] may raise. *)
Fixpoint mapM {A B} (f : A -> result B) (l : list A) : result (list B) :=
  match l with
  | [] => Ok []
  | x :: tl =>
      bind (f x) (fun y => bind (mapM f tl) (fun ys => Ok (y :: ys)))
  end.

(** [for x in l: s = body(x, s)] where the body may raise: the loop stops
    at the first exception. *)
Fixpoint for_ {A S} (l : list A) (body : A -> S -> result S) (s : S)
  : result S :=
  match l with
  | [] => Ok s
  | x :: tl => bind (body x s) (for_ tl body)
  end.

(** [range(start, stop, step)] for non-negative arguments: a step of zero
    raises ValueError, otherwise the values [start + k*step] below [stop]. *)
Definition range_len (start stop step : nat) : nat :=
  (stop - start + step - 1) / step.

Definition range (start stop step : nat) : result (list nat) :=
  match step with
  | 0 => Raise ValueError
  | _ => Ok (map (fun k => start + k * step)
                 (seq 0 (range_len start stop step)))
  end.

(** [range(0, n)] *)
Definition range0 (n : nat) : list nat := seq 0 n.

(** [l[i:j]] for [0 <= i], [0 <= j]. *)
Definition slice {A} (l : list A) (i j : nat) : list A :=
  firstn (j - i) (skipn i l).

(** [l[i]] for [0 <= i]. *)
Definition getitem {A} (l : list A) (i : nat) : result A :=
  match nth_error l i with
  | Some a => Ok a
  | None => Raise IndexError
  end.

(** The value of one item of a [bytes] object. *)
Definition byte_val (b : byte) : Z := Z.of_N (Byte.to_N b).

(** [struct.unpack('H', c)[0]]: an unsigned short in the byte order of the
    host, which is little-endian on the machines the navigator runs on;
    a buffer that is not two bytes long raises struct.error. *)
Definition struct_unpack_H (c : list byte) : result Z :=
  match c with
  | [lo; hi] => Ok (byte_val lo + 256 * byte_val hi)%Z
  | _ => Raise StructError
  end.

(** [bytearray(l)] for a list of integers: every item must be in
    [range(256)]. *)
Definition bytearray (l : list Z) : result (list Z) :=
  if forallb (fun v => (0 <=? v)%Z && (v <? 256)%Z) l
  then Ok l else Raise ValueError.

End Py.

Import Py.

Notation "x <- m ;; k" := (bind m (fun x => k))
  (at level 61, m at next level, right associativity).

(** ** The part of GdkPixbuf that the decoder uses *)

Module GdkPixbuf.

Abbreviation rgb := (Z * Z * Z)%type.

(** An RGB pixbuf without alpha, 8 bits per sample: its pixels in raster
    order (top to bottom, left to right). *)
Record Pixbuf : Type := mkPixbuf {
  width  : nat;
  height : nat;
  pixels : list rgb
}.

Definition get_pixel (p : Pixbuf) (x y : nat) : option rgb :=
  if (x <? width p) && (y <? height p)
  then nth_error (pixels p) (y * width p + x) else None.

(** [Pixbuf.new(Colorspace.RGB, False, 8, w, h)]: NULL (None in Python)
    unless both dimensions are positive.  The content of a fresh buffer
    is not specified; it is written as black here and the decoder
    overwrites it at once. *)
Definition new (w h : nat) : option Pixbuf :=
  if (0 <? w) && (0 <? h)
  then Some (mkPixbuf w h (repeat (0, 0, 0)%Z (w * h))) else None.

(** [pixbuf.fill(pixel)]: [pixel] is packed as 0xRRGGBBAA; alpha is
    ignored in a pixbuf without alpha. *)
Definition fill (p : Pixbuf) (pixel : Z) : Pixbuf :=
  let r := Z.land (Z.shiftr pixel 24) 255 in
  let g := Z.land (Z.shiftr pixel 16) 255 in
  let b := Z.land (Z.shiftr pixel 8) 255 in
  mkPixbuf (width p) (height p) (repeat (r, g, b) (width p * height p)).

(** [Pixbuf.new_from_data(data, RGB, False, 8, w, h, rowstride)]: pixel
    [(x, y)] is the three samples at [y*rowstride + 3*x]. *)
Definition sample (data : list Z) (i : nat) : Z := nth i data 0%Z.

Definition new_from_data (data : list Z) (w h rowstride : nat)
  : option Pixbuf :=
  if (0 <? w) && (0 <? h)
  then Some (mkPixbuf w h
    (flat_map (fun y =>
       map (fun x => (sample data (y * rowstride + 3 * x),
                      sample data (y * rowstride + 3 * x + 1),
                      sample data (y * rowstride + 3 * x + 2)))
           (seq 0 w))
       (seq 0 h)))
  else None.

(** [pixbuf.scale_simple(dw, dh, InterpType.NEAREST)]: destination pixel
    [(x, y)] takes the source pixel under its centre. *)
Definition nearest (d dn sn : nat) : nat := ((2 * d + 1) * sn) / (2 * dn).

Definition scale_simple (p : Pixbuf) (dw dh : nat) : option Pixbuf :=
  if (0 <? dw) && (0 <? dh)
  then Some (mkPixbuf dw dh
    (flat_map (fun y =>
       map (fun x =>
              nth (nearest y dh (height p) * width p
                   + nearest x dw (width p))
                  (pixels p) (0, 0, 0)%Z)
           (seq 0 dw))
       (seq 0 dh)))
  else None.

(** A method call on what may be None. *)
Definition on_object {A} (o : option A) : result A :=
  match o with
  | Some a => Ok a
  | None => Raise AttributeError
  end.

End GdkPixbuf.

Import GdkPixbuf.

(** ** Constants *)

Definition ROW : nat := 4.
Definition BLOCK : nat := ROW * 8.

(** ** Tools *)

(** [[iterable[i:i+chunksize] for i in range(0, len(iterable), chunksize)]] *)
Definition cut {A} (iterable : list A) (chunksize : nat)
  : result (list (list A)) :=
  starts <- range 0 (length iterable) chunksize ;;
  Ok (map (fun i => slice iterable i (i + chunksize)) starts).

(** ** Palette *)

Module Palette.
Record t : Type := mk {
  offset : nat;
  colors : list (list Z)
}.
End Palette.
Abbreviation Palette := Palette.t.
Abbreviation mkPalette := Palette.mk.

Definition Palette_init (data : list byte) (offset : nat) : result Palette :=
  match data with
  | [] => Ok (mkPalette offset [])
  | _ =>
      chunks <- cut data 2 ;;
      cs <- mapM (fun c => struct_unpack_H (slice c 0 2)) chunks ;;
      Ok (mkPalette offset
            (map (fun c => [ (Z.land c 0x001F) * 8
                           ; (Z.shiftr (Z.land c 0x03E0) 5) * 8
                           ; (Z.shiftr (Z.land c 0x7C00) 10) * 8 ]%Z) cs))
  end.

(** ** Image *)

(** [self.pixbuf] is a Python attribute: it holds a pixbuf or None. *)
Module Image.
Record t : Type := mk {
  pixbuf : option Pixbuf
}.
End Image.
Abbreviation Image := Image.t.
Abbreviation mkImage := Image.mk.

(** The innermost loop of [Image.__init__]:
    [for j in range(4): append r[j] & 0x0F; append r[j] >> 4]. *)
Definition extract_pixels (r : list byte) (bytestring : list Z)
  : result (list Z) :=
  for_ (range0 4)
    (fun j bs =>
       lo <- getitem r j ;;
       hi <- getitem r j ;;
       Ok ((bs ++ [Z.land (byte_val lo) 0x0F]) ++ [Z.shiftr (byte_val hi) 4]))
    bytestring.

(** The three [cut]s at the head of the decoding branch: blocks, their
    rows, and the block rows of the sprite. *)
Definition Image_blocks (data : list byte) (size : nat * nat)
  : result (list (list (list (list byte)))) :=
  (* slice into blocks *)
  blocks <- cut data BLOCK ;;
  (* slice block content *)
  blocks <- mapM (fun b => cut b ROW) blocks ;;
  (* rearrange into blockrows (y/x coordinates) *)
  cut blocks (fst size).

(** [blocks[y][x][i]] *)
Definition block_row (blocks : list (list (list (list byte))))
    (y x i : nat) : result (list byte) :=
  blockrow <- getitem blocks y ;;
  block <- getitem blockrow x ;;
  getitem block i.

(** The loops of [Image.__init__] that fill [bytestring] with pixel
    indices. *)
Definition Image_bytestring (data : list byte) (size : nat * nat)
  : result (list Z) :=
  blocks <- Image_blocks data size ;;
  (* for each block row *)
  for_ (range0 (snd size))
    (fun y bs =>
       (* for each final row *)
       for_ (range0 (BLOCK / ROW))
         (fun i bs =>
            (* for each block column *)
            for_ (range0 (fst size))
              (fun x bs =>
                 r <- block_row blocks y x i ;;
                 extract_pixels r bs)
              bs)
         bs)
    [].

(** [for i in bytestring: result += palette.colors[i]] *)
Definition apply_palette (palette : Palette) (bytestring : list Z)
  : result (list Z) :=
  for_ bytestring
    (fun i result =>
       c <- getitem (Palette.colors palette) (Z.to_nat i) ;;
       Ok (result ++ c))
    [].

(** The buffer handed to [Pixbuf.new_from_data]:
    [b''+bytearray(result)]. *)
Definition Image_result (data : list byte) (size : nat * nat)
    (palette : Palette) : result (list Z) :=
  bytestring <- Image_bytestring data size ;;
  result <- apply_palette palette bytestring ;;
  bytearray result.

Definition Image_init (data : list byte) (size : nat * nat)
    (palette : Palette) : result Image :=
  match data with
  | [] =>
      (* dummy image *)
      p <- on_object (GdkPixbuf.new (fst size * 8 * 2) (snd size * 8 * 2)) ;;
      Ok (mkImage (Some (fill p 0xAAAAAAFF)))
  | _ =>
      result <- Image_result data size palette ;;
      p <- on_object (new_from_data result (8 * fst size) (8 * snd size)
                        (8 * fst size * 3)) ;;
      Ok (mkImage (scale_simple p (8 * fst size * 2) (8 * snd size * 2)))
  end.

(** ** Sprite *)

Module Sprite.
Record t : Type := mk {
  name    : string;
  offset  : nat;
  size    : nat * nat;
  length  : nat;
  palette : Palette;
  image   : Image
}.
End Sprite.
Abbreviation Sprite := Sprite.t.
Abbreviation mkSprite := Sprite.mk.

Definition Sprite_init (data : list byte) (offset : nat) (size : nat * nat)
    (palette : Palette) : result Sprite :=
  image <- Image_init data size palette ;;
  Ok (mkSprite EmptyString offset size (fst size * snd size * BLOCK)
        palette image).

(** ** ROM *)

(** One [f.read(n)]: where the cursor was, how many bytes were asked for and
    how many came back. *)
Record read_event : Type := mkRead {
  read_at   : nat;
  read_size : nat;
  read_got  : nat
}.

(** A file opened with mode 'rb'. *)
Record file : Type := mkFile {
  contents : list byte;
  pos      : nat;
  reads    : list read_event
}.

Definition seek (f : file) (n : nat) : file :=
  mkFile (contents f) n (reads f).

(** [f.read(n)] returns the bytes from the cursor on, at most [n] of them
    and none at or after the end, and advances the cursor by what it
    returned. *)
Definition read (f : file) (n : nat) : list byte * file :=
  let data := slice (contents f) (pos f) (pos f + n) in
  (data,
   mkFile (contents f) (pos f + length data)
     (reads f ++ [mkRead (pos f) n (length data)])).

(** What [open(filename, 'rb')] does for each file name: the contents of
    the file, or the exception that [open] raises. *)
Definition filesystem : Type := string -> result (list byte).

Module ROM.
Record t : Type := mk {
  filename : string
}.
End ROM.
Abbreviation ROM := ROM.t.
Abbreviation mkROM := ROM.mk.

(** The loop [for os in ...: sprite = Sprite(f.read(length), os, size,
    palette); sprites.append(sprite)] over the file object and the list
    [sprites], both of which keep their state when an exception leaves the
    loop. *)
Fixpoint read_sprites (oss : list nat) (length : nat) (size : nat * nat)
    (palette : Palette) (f : file) (sprites : list Sprite)
  : option exn * file * list Sprite :=
  match oss with
  | [] => (None, f, sprites)
  | os :: rest =>
      let (data, f') := read f length in
      match Sprite_init data os size palette with
      | Raise e => (Some e, f', sprites)
      | Ok sprite => read_sprites rest length size palette f' (sprites ++ [sprite])
      end
  end.

(** The body of the [with] statement of [ROM.search]. *)
Definition search_body (f : file) (offset : nat) (size : nat * nat)
    (paloffset qty : nat) (sprites : list Sprite)
  : option exn * file * list Sprite :=
  (* read palette *)
  let f := seek f paloffset in
  let (paldata, f) := read f 32 in
  match Palette_init paldata paloffset with
  | Raise e => (Some e, f, sprites)
  | Ok palette =>
      (* read sprites *)
      let f := seek f offset in
      let length := fst size * snd size * BLOCK in
      match range offset (offset + qty * length) length with
      | Raise e => (Some e, f, sprites)
      | Ok oss => read_sprites oss length size palette f sprites
      end
  end.

(** [except FileNotFoundError as e: print(e); pass], then
    [return sprites]; any other exception leaves [search]. *)
Definition search_except (raised : option exn) (sprites : list Sprite)
  : result (list Sprite) :=
  match raised with
  | None => Ok sprites
  | Some FileNotFoundError => Ok sprites
  | Some e => Raise e
  end.

(** [ROM.search], with the reads it issued on the file it opened. *)
Definition ROM_search_run (fs : filesystem) (self : ROM) (offset : nat)
    (size : nat * nat) (paloffset qty : nat)
  : result (list Sprite) * list read_event :=
  let sprites := [] in
  match fs (ROM.filename self) with
  | Raise e => (search_except (Some e) sprites, [])
  | Ok bytes =>
      let '(raised, f, sprites) :=
        search_body (mkFile bytes 0 []) offset size paloffset qty sprites in
      (search_except raised sprites, reads f)
  end.

Definition ROM_search (fs : filesystem) (self : ROM) (offset : nat)
    (size : nat * nat) (paloffset qty : nat) : result (list Sprite) :=
  fst (ROM_search_run fs self offset size paloffset qty).

Definition ROM_search_reads (fs : filesystem) (self : ROM) (offset : nat)
    (size : nat * nat) (paloffset qty : nat) : list read_event :=
  snd (ROM_search_run fs self offset size paloffset qty).

(** ** What the specification says, in its own words *)

Module Spec.

(** The [k]-th consecutive 32-byte chunk of the raw tile data. *)
Definition tile (data : list byte) (k : nat) : list byte :=
  firstn 32 (skipn (k * 32) data).

(** Row [i] of a tile: its [i]-th group of 4 bytes. *)
Definition tile_row (t : list byte) (i : nat) : list byte :=
  firstn 4 (skipn (i * 4) t).

(** A byte [v] yields the pixel [v & 0x0F] followed by [v >> 4]. *)
Definition unpack_byte (v : byte) : list Z :=
  [Z.land (byte_val v) 0x0F; Z.shiftr (byte_val v) 4].

Definition unpack_row (r : list byte) : list Z := flat_map unpack_byte r.

(** TileUnpacker.unpack: the 8 rows of 8 indices of a tile. *)
Definition unpack (t : list byte) : list (list Z) :=
  map (fun i => unpack_row (tile_row t i)) (seq 0 8).

(** The scan-order reconstruction of ImageAssembler: for tileRow, for
    subRow, for tileCol, the decoded sub-row of tile (tileRow, tileCol). *)
Definition scan (data : list byte) (tilesWide tilesHigh : nat) : list Z :=
  flat_map (fun tileRow =>
    flat_map (fun subRow =>
      flat_map (fun tileCol =>
        nth subRow (unpack (tile data (tileRow * tilesWide + tileCol))) [])
        (seq 0 tilesWide))
      (seq 0 8))
    (seq 0 tilesHigh).

(** The pixel index that raster position [(x, y)] must show: the nibble
    of the byte of row [y mod 8] of tile [(y / 8, x / 8)] that holds
    column [x mod 8], low nibble for even columns. *)
Definition index_at (data : list byte) (tilesWide x y : nat) : Z :=
  let v := byte_val
             (nth (((y / 8) * tilesWide + x / 8) * 32
                   + (y mod 8) * 4 + (x mod 8) / 2) data x00) in
  if Nat.even x then Z.land v 0x0F else Z.shiftr v 4.

(** A 15-bit colour 0BBBBBGGGGGRRRRR as an RGB triple. *)
Definition color_of (c : Z) : list Z :=
  [ (Z.land c 0x001F) * 8
  ; (Z.shiftr (Z.land c 0x03E0) 5) * 8
  ; (Z.shiftr (Z.land c 0x7C00) 10) * 8 ]%Z.

(** The little-endian 16-bit value at entry [i] of a palette record. *)
Definition le16 (data : list byte) (i : nat) : Z :=
  (byte_val (nth (2 * i) data x00)
   + 256 * byte_val (nth (2 * i + 1) data x00))%Z.

(** The requests that one search must issue: the palette, then [count]
    sprite records one after the other. *)
Definition expected_reads (offset length paloffset count : nat)
  : list read_event :=
  mkRead paloffset 32 32
  :: map (fun i => mkRead (offset + i * length) length length)
         (seq 0 count).

End Spec.

(** A palette as [Palette] builds it from a full record: 16 colours of
    three samples, each sample a byte. *)
Definition sample_ok (v : Z) : Prop := (0 <= v < 256)%Z.

Definition color_ok (c : list Z) : Prop :=
  length c = 3 /\ Forall sample_ok c.

Definition palette16 (p : Palette) : Prop :=
  length (Palette.colors p) = 16 /\ Forall color_ok (Palette.colors p).

(** A sample on the 5-bit scale: one of 0, 8, 16, ..., 248. *)
Definition five_bit_sample (v : Z) : Prop :=
  exists q : Z, (v = 8 * q /\ 0 <= q <= 31)%Z.

(** A read that returned all it was asked for, or nothing. *)
Definition all_or_nothing (r : read_event) : Prop :=
  read_got r = read_size r \/ read_got r = 0.

(** The uniform image of the dummy branch. *)
Definition sentinel : rgb := (170, 170, 170)%Z.

Definition dummy_image (size : nat * nat) : Image :=
  mkImage
    (Some (mkPixbuf (fst size * 8 * 2) (snd size * 8 * 2)
             (repeat sentinel ((fst size * 8 * 2) * (snd size * 8 * 2))))).

(** What [Sprite.__init__] records besides the image. *)
Definition stamped (size : nat * nat) (pal : Palette) (os : nat)
    (s : Sprite) : Prop :=
  Sprite.name s = EmptyString
  /\ Sprite.offset s = os
  /\ Sprite.size s = size
  /\ Sprite.length s = fst size * snd size * 32
  /\ Sprite.palette s = pal.

(** ** The forms *)

(** [hex(n)] for [n >= 0]: 0x and the lowercase hexadecimal digits. *)
Definition hex (n : nat) : string := HexString.of_nat n.

(** The one-character string of a line feed. *)
Definition newline : string := String (Ascii.ascii_of_nat 10) EmptyString.

(** A row of a [Gtk.ListStore(Pixbuf, str, int)]: image, text, offset. *)
Record row : Type := mkRow {
  row_image  : option Pixbuf;
  row_text   : string;
  row_offset : nat
}.

Definition size_eqb (a b : nat * nat) : bool :=
  (fst a =? fst b) && (snd a =? snd b).

(** [sprite.name = name] *)
Definition set_name (sprite : Sprite) (name : string) : Sprite :=
  mkSprite name (Sprite.offset sprite) (Sprite.size sprite)
    (Sprite.length sprite) (Sprite.palette sprite) (Sprite.image sprite).

(** One value of the bookmarks dictionary: [[name, palette offset, size]]. *)
Definition bookmark : Type := (string * nat * (nat * nat))%type.

(** [self.iconstore] is recorded as the rows in the order of their
    [append].  The store of the bookmarks sorts itself with
    [BookmarksForm.sort], so that of this list only the rows it holds, not
    their order, tell what the store shows. *)
Module BookmarksForm.
Record t : Type := mk {
  sprites   : list Sprite;
  iconstore : list row
}.
End BookmarksForm.
Abbreviation BookmarksForm := BookmarksForm.t.
Abbreviation mkBookmarksForm := BookmarksForm.mk.

(** [for s in self.sprites: if sprite.offset == s.offset and sprite.size ==
    s.size: return s.name], and [return ""] after the loop. *)
Definition BookmarksForm_get_name (self : BookmarksForm) (sprite : Sprite)
  : string :=
  match find (fun s => (Sprite.offset sprite =? Sprite.offset s)
                       && size_eqb (Sprite.size sprite) (Sprite.size s))
          (BookmarksForm.sprites self) with
  | Some s => Sprite.name s
  | None => EmptyString
  end.

(** [for sprite in self.sprites: if sprite.offset == offset: return
    sprite], and [return None] after the loop. *)
Definition BookmarksForm_get_sprite (self : BookmarksForm) (offset : nat)
  : option Sprite :=
  find (fun sprite => Sprite.offset sprite =? offset)
    (BookmarksForm.sprites self).

(** [BookmarksForm.sort(model, a, b, user_data)], where [a] and [b] stand
    for the offsets [model.get_value(a, 2)] and [model.get_value(b, 2)] of
    the two rows; reading [.length] of None raises AttributeError. *)
Definition BookmarksForm_sort (user_data : BookmarksForm) (a b : nat)
  : result Z :=
  let value1 := BookmarksForm_get_sprite user_data a in
  let value2 := BookmarksForm_get_sprite user_data b in
  value1 <- on_object value1 ;;
  value2 <- on_object value2 ;;
  if Sprite.length value1 <? Sprite.length value2 then Ok (-1)%Z
  else if Sprite.length value1 =? Sprite.length value2
       then Ok (if Sprite.offset value1 <? Sprite.offset value2
                then (-1)%Z else 1%Z)
       else Ok 1%Z.

(** The [try] statement of [BookmarksForm.load]:
    [sprite = Context.rom.search(offset, bkm[2], bkm[1], 1)[0]], and on
    IndexError the sprite of dummy data
    [Sprite("", offset, bkm[2], Palette("", bkm[1]))]. *)
Definition load_sprite (fs : filesystem) (rom : ROM) (offset : nat)
    (bkm : bookmark) : result Sprite :=
  let '(_, paloffset, size) := bkm in
  match (found <- ROM_search fs rom offset size paloffset 1 ;;
         getitem found 0) with
  | Raise IndexError =>
      (* the sprite was not found, put dummy data *)
      palette <- Palette_init [] paloffset ;;
      Sprite_init [] offset size palette
  | r => r
  end.

(** The loop of [BookmarksForm.load] over [bookmarks.items()]; the form
    keeps what was appended when an exception leaves the loop. *)
Fixpoint load_items (fs : filesystem) (rom : ROM)
    (items : list (nat * bookmark)) (self : BookmarksForm)
  : option exn * BookmarksForm :=
  match items with
  | [] => (None, self)
  | (offset, bkm) :: rest =>
      match load_sprite fs rom offset bkm with
      | Raise e => (Some e, self)
      | Ok sprite =>
          let sprite := set_name sprite (fst (fst bkm)) in
          (* add sprite to the list, refresh iconview *)
          load_items fs rom rest
            (mkBookmarksForm
               (BookmarksForm.sprites self ++ [sprite])
               (BookmarksForm.iconstore self
                ++ [mkRow (Image.pixbuf (Sprite.image sprite))
                      (Sprite.name sprite ++ newline
                       ++ hex (Sprite.offset sprite))%string
                      (Sprite.offset sprite)]))
      end
  end.

(** [BookmarksForm.load(bookmarks)]: [bookmarks] is a dictionary keyed by
    offset, given by its items in order. *)
Definition BookmarksForm_load (fs : filesystem) (rom : ROM)
    (self : BookmarksForm) (bookmarks : list (nat * bookmark))
  : option exn * BookmarksForm :=
  load_items fs rom bookmarks (mkBookmarksForm [] []).

Module SearchForm.
Record t : Type := mk {
  offset    : nat;
  palette   : nat;
  size      : nat * nat;
  qty       : nat;
  iconstore : list row;
  sprites   : list Sprite
}.
End SearchForm.
Abbreviation SearchForm := SearchForm.t.
Abbreviation mkSearchForm := SearchForm.mk.

(** The row that [SearchForm.search] appends for a sprite: the name of
    its bookmark, if it has one, above its offset. *)
Definition search_row (bookmarks_form : BookmarksForm) (sprite : Sprite)
  : row :=
  let name := BookmarksForm_get_name bookmarks_form sprite in
  let text :=
    match name with
    | EmptyString => hex (Sprite.offset sprite)
    | _ => (name ++ newline ++ hex (Sprite.offset sprite))%string
    end in
  mkRow (Image.pixbuf (Sprite.image sprite)) text (Sprite.offset sprite).

(** [SearchForm.search()]: the store is cleared first; [self.sprites] is
    assigned only when [rom.search] returns. *)
Definition SearchForm_search (fs : filesystem) (rom : ROM)
    (bookmarks_form : BookmarksForm) (self : SearchForm)
  : option exn * SearchForm :=
  match ROM_search fs rom (SearchForm.offset self) (SearchForm.size self)
          (SearchForm.palette self) (SearchForm.qty self) with
  | Raise e =>
      (Some e,
       mkSearchForm (SearchForm.offset self) (SearchForm.palette self)
         (SearchForm.size self) (SearchForm.qty self) []
         (SearchForm.sprites self))
  | Ok sprites =>
      (None,
       mkSearchForm (SearchForm.offset self) (SearchForm.palette self)
         (SearchForm.size self) (SearchForm.qty self)
         (map (search_row bookmarks_form) sprites) sprites)
  end.

(** * Properties *)

(** ** Python builtins *)

Section Builtins.

Context {A : Type}.

Lemma range_len_spec (n step k : nat) :
  0 < step -> (k < range_len 0 n step <-> k * step < n).
Proof.
  intros Hs. unfold range_len. rewrite Nat.sub_0_r.
  split; intros H.
  - assert (Hk : S k <= (n + step - 1) / step) by lia.
    assert (Hm : step * ((n + step - 1) / step) <= n + step - 1)
      by (apply Nat.Div0.mul_div_le).
    assert (step * S k <= step * ((n + step - 1) / step))
      by (apply Nat.mul_le_mono_l; exact Hk).
    nia.
  - assert (S k <= (n + step - 1) / step); [| lia].
    apply Nat.div_le_lower_bound; nia.
Qed.

Lemma range_len_exact (m step : nat) :
  0 < step -> range_len 0 (m * step) step = m.
Proof.
  intros Hs.
  pose proof (range_len_spec (m * step) (range_len 0 (m * step) step) Hs)
    as Hr.
  pose proof (range_len_spec (m * step) m Hs) as Hm.
  destruct (Nat.lt_trichotomy (range_len 0 (m * step) step) m)
    as [H | [H | H]]; [| exact H |].
  - assert (range_len 0 (m * step) step * step < m * step) by nia.
    apply Hr in H0. lia.
  - apply Hm in H. lia.
Qed.

Lemma range_from (start stop step : nat) :
  0 < step ->
  range start stop step
  = Ok (map (fun k => start + k * step)
          (seq 0 (range_len start stop step))).
Proof. destruct step; [lia | reflexivity]. Qed.

(** The chunks that [cut] builds when the chunk size is positive. *)
Lemma cut_chunks (l : list A) (n : nat) :
  0 < n ->
  cut l n
  = Ok (map (fun k => firstn n (skipn (k * n) l))
          (seq 0 (range_len 0 (length l) n))).
Proof.
  intros Hn. unfold cut. rewrite range_from by exact Hn.
  cbn [bind]. rewrite map_map. f_equal.
  apply map_ext. intros k. unfold slice.
  replace (0 + k * n + n - (0 + k * n)) with n by lia.
  reflexivity.
Qed.

Lemma cut_zero (l : list A) : cut l 0 = Raise ValueError.
Proof. reflexivity. Qed.

Lemma nth_error_map_seq (B : Type) (f : nat -> B) (m k : nat) :
  nth_error (map f (seq 0 m)) k = if k <? m then Some (f k) else None.
Proof.
  rewrite nth_error_map.
  destruct (Nat.ltb_spec k m) as [H | H].
  - rewrite nth_error_seq.
    destruct (Nat.ltb_spec k m); [reflexivity | lia].
  - rewrite (proj2 (nth_error_None _ _)); [reflexivity |].
    rewrite length_seq. exact H.
Qed.

Lemma getitem_some (l : list A) (k : nat) (a : A) :
  nth_error l k = Some a -> getitem l k = Ok a.
Proof. unfold getitem. intros ->. reflexivity. Qed.

Lemma getitem_cases (l : list A) (k : nat) :
  getitem l k = Raise IndexError
  \/ exists a, getitem l k = Ok a /\ nth_error l k = Some a.
Proof.
  unfold getitem. destruct (nth_error l k) as [a |].
  - right. exists a. split; reflexivity.
  - left. reflexivity.
Qed.

Lemma mapM_total (B : Type) (f : A -> result B) (g : A -> B) (l : list A) :
  (forall x, In x l -> f x = Ok (g x)) -> mapM f l = Ok (map g l).
Proof.
  induction l as [| x tl IH]; intros H; [reflexivity |].
  cbn [mapM map]. rewrite (H x (or_introl eq_refl)). cbn [bind].
  rewrite IH by (intros y Hy; apply H; right; exact Hy).
  reflexivity.
Qed.

(** A loop whose body only appends runs to its end. *)
Lemma for_appends (B : Type) (body : A -> list B -> result (list B))
    (g : A -> list B) (l : list A) (s : list B) :
  (forall x s', In x l -> body x s' = Ok (s' ++ g x)) ->
  for_ l body s = Ok (s ++ flat_map g l).
Proof.
  revert s. induction l as [| x tl IH]; intros s H; cbn [for_ flat_map].
  - rewrite app_nil_r. reflexivity.
  - rewrite (H x s (or_introl eq_refl)). cbn [bind].
    rewrite IH by (intros y s' Hy; apply H; right; exact Hy).
    rewrite app_assoc. reflexivity.
Qed.

(** A loop whose body can only raise [e] can only raise [e], and does so
    as soon as one iteration is bound to fail. *)
Lemma for_raises_only (S : Type) (body : A -> S -> result S) (e : exn)
    (l : list A) :
  (forall x s e', body x s = Raise e' -> e' = e) ->
  forall s e', for_ l body s = Raise e' -> e' = e.
Proof.
  intros Hb. induction l as [| x tl IH]; intros s e' H; cbn [for_] in H.
  - discriminate H.
  - destruct (body x s) as [s1 | e1] eqn:E; cbn [bind] in H.
    + exact (IH _ _ H).
    + inversion H; subst. exact (Hb _ _ _ E).
Qed.

Lemma for_raises (S : Type) (body : A -> S -> result S) (e : exn)
    (l : list A) (x0 : A) :
  (forall x s e', body x s = Raise e' -> e' = e) ->
  In x0 l -> (forall s, body x0 s = Raise e) ->
  forall s, for_ l body s = Raise e.
Proof.
  intros Hb Hin Hx0. induction l as [| x tl IH]; intros s; [destruct Hin |].
  cbn [for_]. destruct (body x s) as [s1 | e1] eqn:E; cbn [bind].
  - destruct Hin as [-> | Hin]; [rewrite Hx0 in E; discriminate E |].
    exact (IH Hin s1).
  - f_equal. exact (Hb _ _ _ E).
Qed.

End Builtins.

(** ** Chunks *)

Section Chunks.

Context {A : Type}.

Lemma nth_error_chunks (l : list A) (n k : nat) :
  0 < n ->
  nth_error (map (fun k => firstn n (skipn (k * n) l))
               (seq 0 (range_len 0 (length l) n))) k
  = if k * n <? length l then Some (firstn n (skipn (k * n) l)) else None.
Proof.
  intros Hn. rewrite nth_error_map_seq.
  pose proof (range_len_spec (length l) k Hn) as Hr.
  destruct (Nat.ltb_spec k (range_len 0 (length l) n));
    destruct (Nat.ltb_spec (k * n) (length l)); try reflexivity; lia.
Qed.

Lemma length_chunk (l : list A) (n k : nat) :
  length (firstn n (skipn (k * n) l)) = Nat.min n (length l - k * n).
Proof. rewrite length_firstn, length_skipn. reflexivity. Qed.

End Chunks.

(** ** Palette *)

Section PaletteFacts.

Lemma mapM_raises (A B : Type) (f : A -> result B) (e : exn)
    (l : list A) (x0 : A) :
  (forall x e', f x = Raise e' -> e' = e) ->
  In x0 l -> f x0 = Raise e -> mapM f l = Raise e.
Proof.
  intros Hf Hin Hx0. induction l as [| x tl IH]; [destruct Hin |].
  cbn [mapM]. destruct (f x) as [y | e1] eqn:E; cbn [bind].
  - destruct Hin as [-> | Hin]; [rewrite Hx0 in E; discriminate E |].
    rewrite (IH Hin). reflexivity.
  - f_equal. exact (Hf _ _ E).
Qed.

Lemma unpack_H_raises (c : list byte) (e : exn) :
  struct_unpack_H c = Raise e -> e = StructError.
Proof.
  destruct c as [| a [| b [| d tl]]]; cbn; intros H;
    solve [discriminate H | inversion H; reflexivity].
Qed.

Lemma pair_chunk (data : list byte) (j : nat) :
  j * 2 + 1 < length data ->
  firstn 2 (skipn (j * 2) data)
  = [nth (2 * j) data x00; nth (2 * j + 1) data x00].
Proof.
  intros H.
  assert (L : length (firstn 2 (skipn (j * 2) data)) = 2)
    by (rewrite length_chunk; lia).
  pose proof (nth_firstn 2 (skipn (j * 2) data) 0 x00) as H0.
  pose proof (nth_firstn 2 (skipn (j * 2) data) 1 x00) as H1.
  rewrite nth_skipn in H0, H1. cbn [Nat.ltb Nat.leb] in H0, H1.
  replace (j * 2 + 0) with (2 * j) in H0 by lia.
  replace (j * 2 + 1) with (2 * j + 1) in H1 by lia.
  destruct (firstn 2 (skipn (j * 2) data)) as [| a [| b [| d tl]]];
    cbn in L; try discriminate L.
  cbn in H0, H1. subst. reflexivity.
Qed.

Lemma Palette_init_nonempty (data : list byte) (offset : nat) :
  0 < length data ->
  Palette_init data offset
  = (chunks <- cut data 2 ;;
     cs <- mapM (fun c => struct_unpack_H (slice c 0 2)) chunks ;;
     Ok (mkPalette offset (map Spec.color_of cs))).
Proof. destruct data; cbn [length]; [lia | reflexivity]. Qed.

(** A record of [2*k] bytes decodes to [k] colours, silently. *)
Lemma Palette_init_even (data : list byte) (offset k : nat) :
  length data = 2 * k ->
  Palette_init data offset
  = Ok (mkPalette offset
          (map (fun i => Spec.color_of (Spec.le16 data i)) (seq 0 k))).
Proof.
  intros L. destruct (length data) as [| n] eqn:E.
  - destruct data; [| discriminate E].
    destruct k; [reflexivity | lia].
  - rewrite Palette_init_nonempty by (rewrite E; lia).
    rewrite cut_chunks by lia. cbn [bind]. rewrite E.
    replace (S n) with (k * 2) in * by lia.
    rewrite range_len_exact by lia.
    rewrite (mapM_total _ (fun c => (byte_val (nth 0 c x00)
                                    + 256 * byte_val (nth 1 c x00))%Z)).
    + cbn [bind]. do 2 f_equal. rewrite !map_map.
      apply map_ext_in. intros j Hj. apply in_seq in Hj.
      rewrite pair_chunk by lia. reflexivity.
    + intros c Hc. apply in_map_iff in Hc. destruct Hc as (j & <- & Hj).
      apply in_seq in Hj. rewrite pair_chunk by lia. reflexivity.
Qed.

(** A record of odd length makes [struct.unpack] raise on its last,
    one-byte chunk. *)
Lemma Palette_init_odd (data : list byte) (offset k : nat) :
  length data = 2 * k + 1 ->
  Palette_init data offset = Raise StructError.
Proof.
  intros L. rewrite Palette_init_nonempty by lia.
  rewrite cut_chunks by lia. cbn [bind].
  rewrite (@mapM_raises _ _ _ StructError _ (firstn 2 (skipn (k * 2) data))).
  - reflexivity.
  - intros c e. apply unpack_H_raises.
  - apply (@nth_error_In _ _ k). rewrite nth_error_chunks by lia.
    destruct (Nat.ltb_spec (k * 2) (length data)); [reflexivity | lia].
  - assert (Lc : length (firstn 2 (skipn (k * 2) data)) = 1)
      by (rewrite length_chunk; lia).
    destruct (firstn 2 (skipn (k * 2) data)) as [| a [| b tl']];
      cbn in Lc; try discriminate Lc. reflexivity.
Qed.

Lemma color_of_five_bit (c : Z) : Forall five_bit_sample (Spec.color_of c).
Proof.
  assert (M : forall a : Z, (0 <= Z.land a 31 <= 31)%Z).
  { intros a.
    assert (E : Z.land a 31 = (a mod 32)%Z)
      by (apply (Z.land_ones a 5); lia).
    rewrite E. pose proof (Z.mod_pos_bound a 32). lia. }
  unfold Spec.color_of. repeat constructor.
  - exists (Z.land c 31). split; [lia | apply M].
  - exists (Z.shiftr (Z.land c 992) 5). split; [lia |].
    rewrite Z.shiftr_land. change (Z.shiftr 992 5) with 31%Z. apply M.
  - exists (Z.shiftr (Z.land c 31744) 10). split; [lia |].
    rewrite Z.shiftr_land. change (Z.shiftr 31744 10) with 31%Z. apply M.
Qed.

Lemma five_bit_sample_ok (v : Z) : five_bit_sample v -> sample_ok v.
Proof. intros (q & -> & Hq). unfold sample_ok. lia. Qed.

Lemma color_of_ok (c : Z) : color_ok (Spec.color_of c).
Proof.
  split; [reflexivity |].
  eapply Forall_impl; [| apply color_of_five_bit].
  exact five_bit_sample_ok.
Qed.

Lemma Palette_init_full (data : list byte) (offset : nat) :
  length data = 32 ->
  exists p, Palette_init data offset = Ok p /\ palette16 p.
Proof.
  intros L. eexists. split; [apply (@Palette_init_even _ _ 16); lia |].
  split; cbn [Palette.colors].
  - rewrite length_map, length_seq. reflexivity.
  - apply Forall_map, Forall_forall. intros i _. apply color_of_ok.
Qed.

End PaletteFacts.

(** ** Image *)

Section ImageFacts.

Lemma byte_val_range (b : byte) : (0 <= byte_val b <= 255)%Z.
Proof.
  unfold byte_val. pose proof (Byte.to_N_bounded b). lia.
Qed.

Lemma unpack_byte_range (b : byte) :
  Forall (fun v => (0 <= v <= 15)%Z) (Spec.unpack_byte b).
Proof.
  pose proof (byte_val_range b) as Hb. unfold Spec.unpack_byte.
  assert (L : Z.land (byte_val b) 15 = (byte_val b mod 16)%Z)
    by (apply (Z.land_ones (byte_val b) 4); lia).
  assert (H : Z.shiftr (byte_val b) 4 = (byte_val b / 16)%Z)
    by (apply (Z.shiftr_div_pow2 (byte_val b) 4); lia).
  rewrite L, H. repeat constructor.
  - apply Z.mod_pos_bound. lia.
  - pose proof (Z.mod_pos_bound (byte_val b) 16). lia.
  - apply Z.div_pos; lia.
  - assert (byte_val b / 16 < 16)%Z; [| lia].
    apply Z.div_lt_upper_bound; lia.
Qed.

Lemma unpack_row_range (r : list byte) :
  Forall (fun v => (0 <= v <= 15)%Z) (Spec.unpack_row r).
Proof.
  unfold Spec.unpack_row. apply Forall_flat_map, Forall_forall.
  intros b _. apply unpack_byte_range.
Qed.

Lemma length_unpack_row (r : list byte) :
  length (Spec.unpack_row r) = 2 * length r.
Proof.
  unfold Spec.unpack_row. induction r as [| b tl IH]; [reflexivity |].
  cbn [flat_map length app Spec.unpack_byte]. rewrite IH. lia.
Qed.

Lemma extract_pixels_full (r : list byte) (bs : list Z) :
  length r = 4 -> extract_pixels r bs = Ok (bs ++ Spec.unpack_row r).
Proof.
  intros L. destruct r as [| a [| b [| c [| d [| e tl]]]]];
    cbn in L; try discriminate L.
  cbn. rewrite <- !app_assoc. reflexivity.
Qed.

Lemma extract_pixels_short (r : list byte) (bs : list Z) :
  length r < 4 -> extract_pixels r bs = Raise IndexError.
Proof.
  intros L. destruct r as [| a [| b [| c [| d tl]]]];
    cbn in L; try lia; reflexivity.
Qed.

Lemma extract_pixels_raises (r : list byte) (bs : list Z) (e : exn) :
  extract_pixels r bs = Raise e -> e = IndexError.
Proof.
  unfold extract_pixels. apply for_raises_only.
  intros j s e'. destruct (getitem_cases r j) as [E | (v & E & _)];
    rewrite E; cbn [bind]; intros H; inversion H; reflexivity.
Qed.

Lemma block_row_raises (blocks : list (list (list (list byte))))
    (y x i : nat) (e : exn) :
  block_row blocks y x i = Raise e -> e = IndexError.
Proof.
  unfold block_row.
  destruct (getitem_cases blocks y) as [E | (br & E & _)];
    rewrite E; cbn [bind]; [intros H; inversion H; reflexivity |].
  destruct (getitem_cases br x) as [E' | (b & E' & _)];
    rewrite E'; cbn [bind]; [intros H; inversion H; reflexivity |].
  destruct (getitem_cases b i) as [E'' | (r & E'' & _)];
    rewrite E''; intros H; inversion H; reflexivity.
Qed.

(** The three [cut]s succeed for a positive width, and [blocks[y][x][i]]
    is row [i] of the 32-byte chunk number [y*w + x], when the data
    reach that far. *)
Lemma Image_blocks_rows (data : list byte) (w h : nat) :
  0 < w ->
  exists blocks,
    Image_blocks data (w, h) = Ok blocks
    /\ (forall y x i, x < w -> i < 8 ->
          (y * w + x) * 32 + i * 4 < length data ->
          block_row blocks y x i
          = Ok (Spec.tile_row (Spec.tile data (y * w + x)) i))
    /\ (forall y x i r, x < w ->
          block_row blocks y x i = Ok r ->
          r = Spec.tile_row (Spec.tile data (y * w + x)) i).
Proof.
  intros Hw. unfold Image_blocks. cbn [fst].
  rewrite cut_chunks by (cbv; lia). cbn [bind].
  rewrite (mapM_total _
    (fun b => map (fun k => firstn ROW (skipn (k * ROW) b))
                (seq 0 (range_len 0 (length b) ROW))))
    by (intros b _; apply cut_chunks; cbv; lia).
  cbn [bind]. rewrite cut_chunks by exact Hw.
  eexists. split; [reflexivity |].
  set (b1 := map (fun k => firstn BLOCK (skipn (k * BLOCK) data)) _).
  set (b2 := map _ b1).
  assert (L2 : forall k, k < length b2 <-> k * 32 < length data).
  { intros k. unfold b2, b1. rewrite !length_map, length_seq.
    apply (@range_len_spec (length data) 32 k). lia. }
  assert (N2 : forall k, nth_error b2 k
    = if k * 32 <? length data
      then Some (map (fun i => Spec.tile_row (Spec.tile data k) i)
                   (seq 0 (range_len 0 (length (Spec.tile data k)) 4)))
      else None).
  { intros k. unfold b2. rewrite nth_error_map. unfold b1.
    rewrite (@nth_error_chunks _ data BLOCK k) by (cbv; lia).
    change BLOCK with 32.
    destruct (k * 32 <? length data); reflexivity. }
  assert (N3 : forall y x, x < w ->
    match nth_error (map (fun k => firstn w (skipn (k * w) b2))
                      (seq 0 (range_len 0 (length b2) w))) y with
    | Some br => nth_error br x = nth_error b2 (y * w + x)
    | None => nth_error b2 (y * w + x) = None
    end).
  { intros y x Hx. rewrite nth_error_chunks by exact Hw.
    destruct (Nat.ltb_spec (y * w) (length b2)) as [H | H].
    - rewrite nth_error_firstn.
      destruct (Nat.ltb_spec x w); [| lia]. apply nth_error_skipn.
    - apply nth_error_None. lia. }
  split.
  - intros y x i Hx Hi Hd. unfold block_row, getitem.
    specialize (N3 y x Hx). specialize (N2 (y * w + x)).
    destruct (nth_error _ y) as [br |];
      [rewrite <- N3 in N2 |];
      (destruct (Nat.ltb_spec ((y * w + x) * 32) (length data));
       [| lia]).
    + cbn [bind]. rewrite N2. cbn [bind].
      rewrite nth_error_map_seq.
      assert (Hr : i < range_len 0 (length (Spec.tile data (y * w + x))) 4).
      { apply range_len_spec; [lia |]. unfold Spec.tile.
        rewrite length_chunk. lia. }
      destruct (Nat.ltb_spec i
        (range_len 0 (length (Spec.tile data (y * w + x))) 4)); [| lia].
      reflexivity.
    + rewrite N3 in N2. discriminate N2.
  - intros y x i r Hx. unfold block_row, getitem.
    specialize (N3 y x Hx). specialize (N2 (y * w + x)).
    destruct (nth_error _ y) as [br |]; cbn [bind]; [| discriminate].
    rewrite N3, N2.
    destruct (Nat.ltb_spec ((y * w + x) * 32) (length data));
      cbn [bind]; [| discriminate].
    rewrite nth_error_map_seq.
    destruct (i <? _); intros Hr; inversion Hr; reflexivity.
Qed.

End ImageFacts.

Section BytestringFacts.

Lemma length_tile_full (data : list byte) (n k : nat) :
  length data = n * 32 -> k < n -> length (Spec.tile data k) = 32.
Proof.
  intros L Hk. unfold Spec.tile. rewrite length_chunk. lia.
Qed.

Lemma length_tile_row_full (t : list byte) (i : nat) :
  length t = 32 -> i < 8 -> length (Spec.tile_row t i) = 4.
Proof.
  intros L Hi. unfold Spec.tile_row. rewrite length_chunk. lia.
Qed.

Lemma nth_unpack (t : list byte) (i : nat) :
  i < 8 -> nth i (Spec.unpack t) [] = Spec.unpack_row (Spec.tile_row t i).
Proof.
  intros Hi. unfold Spec.unpack.
  do 8 (destruct i as [| i]; [reflexivity |]). lia.
Qed.

(** On a buffer of exactly [w*h] tiles the loops run to their end and
    build the scan order of the specification. *)
Lemma Image_bytestring_full (data : list byte) (w h : nat) :
  0 < w -> length data = w * h * 32 ->
  Image_bytestring data (w, h) = Ok (Spec.scan data w h).
Proof.
  intros Hw L. unfold Image_bytestring.
  destruct (Image_blocks_rows data h Hw) as (blocks & -> & Hrow & _).
  cbn [bind fst snd]. change (BLOCK / ROW) with 8. unfold range0.
  change (Ok (Spec.scan data w h)) with (Ok ([] ++ Spec.scan data w h)).
  unfold Spec.scan.
  apply for_appends. intros y s Hy. apply in_seq in Hy.
  apply for_appends. intros i s' Hi. apply in_seq in Hi.
  apply for_appends. intros x s'' Hx. apply in_seq in Hx.
  assert (Hk : y * w + x < w * h) by nia.
  rewrite Hrow by lia. cbn [bind].
  rewrite nth_unpack by lia.
  apply extract_pixels_full.
  apply length_tile_row_full; [| lia].
  apply (@length_tile_full data (w * h)); [exact L | exact Hk].
Qed.

(** On a shorter buffer the loops end in IndexError: at the latest when
    they reach the last row of the last tile. *)
Lemma Image_bytestring_short (data : list byte) (w h : nat) :
  0 < w -> 0 < h -> length data < w * h * 32 ->
  Image_bytestring data (w, h) = Raise IndexError.
Proof.
  intros Hw Hh L. unfold Image_bytestring.
  destruct (Image_blocks_rows data h Hw) as (blocks & -> & _ & Hrow).
  cbn [bind fst snd]. change (BLOCK / ROW) with 8. unfold range0.
  assert (Hx : forall y i x s e,
    (r <- block_row blocks y x i ;; extract_pixels r s) = Raise e ->
    e = IndexError).
  { intros y i x s e. destruct (block_row blocks y x i) as [r | e'] eqn:E;
      cbn [bind].
    - apply extract_pixels_raises.
    - intros H. inversion H; subst. exact (block_row_raises _ _ _ _ E). }
  assert (Hi : forall y i s e,
    for_ (seq 0 w)
      (fun x bs => r <- block_row blocks y x i ;; extract_pixels r bs) s
    = Raise e -> e = IndexError).
  { intros y i. apply for_raises_only. intros x s e. apply Hx. }
  assert (Hy : forall y s e,
    for_ (seq 0 8)
      (fun i bs =>
         for_ (seq 0 w)
           (fun x bs => r <- block_row blocks y x i ;; extract_pixels r bs)
           bs) s
    = Raise e -> e = IndexError).
  { intros y. apply for_raises_only. intros i s e. apply Hi. }
  apply (@for_raises _ _ _ IndexError _ (h - 1)).
  - intros y s e. apply Hy.
  - apply in_seq. lia.
  - apply (@for_raises _ _ _ IndexError _ 7).
    + intros i s e. apply Hi.
    + apply in_seq. lia.
    + apply (@for_raises _ _ _ IndexError _ (w - 1)).
      * intros x s e. apply Hx.
      * apply in_seq. lia.
      * intros s.
        destruct (block_row blocks (h - 1) (w - 1) 7) as [r | e] eqn:E;
          cbn [bind].
        -- apply Hrow in E; [| lia]. subst r.
           apply extract_pixels_short.
           unfold Spec.tile_row, Spec.tile. rewrite !length_chunk.
           assert ((h - 1) * w + (w - 1) = w * h - 1) by nia.
           lia.
        -- f_equal. exact (block_row_raises _ _ _ _ E).
Qed.

Lemma length_flat_map_uniform (B : Type) (f : nat -> list B) (m n : nat) :
  (forall a, a < n -> length (f a) = m) ->
  length (flat_map f (seq 0 n)) = n * m.
Proof.
  intros H. induction n as [| n IH]; [reflexivity |].
  rewrite seq_S, flat_map_app, length_app. cbn [flat_map Nat.add].
  rewrite app_nil_r, IH by (intros a Ha; apply H; lia).
  rewrite H by lia. lia.
Qed.

(** Position [i*m + j] of uniform pieces laid end to end is position [j]
    of piece [i]. *)
Lemma nth_flat_map_uniform (B : Type) (f : nat -> list B) (d : B)
    (m n i j : nat) :
  (forall a, a < n -> length (f a) = m) ->
  i < n -> j < m ->
  nth (i * m + j) (flat_map f (seq 0 n)) d = nth j (f i) d.
Proof.
  intros H. revert i j. induction n as [| n IH]; intros i j Hi Hj; [lia |].
  rewrite seq_S, flat_map_app. cbn [flat_map Nat.add].
  rewrite app_nil_r.
  assert (Ln : length (flat_map f (seq 0 n)) = n * m)
    by (apply length_flat_map_uniform; intros a Ha; apply H; lia).
  destruct (Nat.eq_dec i n) as [-> | Hne].
  - rewrite app_nth2 by (rewrite Ln; lia).
    rewrite Ln. f_equal. lia.
  - rewrite app_nth1 by (rewrite Ln; nia).
    apply IH; [intros a Ha; apply H; lia | lia | exact Hj].
Qed.

Lemma length_unpacked_row (data : list byte) (n k i : nat) :
  length data = n * 32 -> k < n -> i < 8 ->
  length (nth i (Spec.unpack (Spec.tile data k)) []) = 8.
Proof.
  intros L Hk Hi. rewrite nth_unpack by exact Hi.
  rewrite length_unpack_row, length_tile_row_full; [reflexivity | | exact Hi].
  exact (length_tile_full data L Hk).
Qed.

Lemma length_scan (data : list byte) (w h : nat) :
  length data = w * h * 32 ->
  length (Spec.scan data w h) = (8 * w) * (8 * h).
Proof.
  intros L. unfold Spec.scan.
  rewrite (@length_flat_map_uniform _ _ (8 * (w * 8))); [lia |].
  intros y Hy. apply length_flat_map_uniform. intros i Hi.
  apply length_flat_map_uniform. intros x Hx.
  apply (@length_unpacked_row data (w * h)); [exact L | nia | exact Hi].
Qed.

(** Raster position [(x, y)] of the scan: column [x mod 8] of sub-row
    [y mod 8] of tile [(y / 8, x / 8)]. *)
Lemma scan_at (data : list byte) (w h x y : nat) :
  length data = w * h * 32 -> x < 8 * w -> y < 8 * h ->
  nth (y * (8 * w) + x) (Spec.scan data w h) 0%Z
  = nth (x mod 8)
      (nth (y mod 8) (Spec.unpack (Spec.tile data (y / 8 * w + x / 8))) [])
      0%Z.
Proof.
  intros L Hx Hy. unfold Spec.scan.
  pose proof (Nat.div_mod_eq x 8) as Dx.
  pose proof (Nat.div_mod_eq y 8) as Dy.
  pose proof (Nat.mod_upper_bound x 8) as Mx.
  pose proof (Nat.mod_upper_bound y 8) as My.
  assert (Qx : x / 8 < w) by (apply Nat.Div0.div_lt_upper_bound; lia).
  assert (Qy : y / 8 < h) by (apply Nat.Div0.div_lt_upper_bound; lia).
  assert (Ltile : forall tr sr tc, tr < h -> sr < 8 -> tc < w ->
    length (nth sr (Spec.unpack (Spec.tile data (tr * w + tc))) []) = 8).
  { intros tr sr tc Htr Hsr Htc.
    apply (@length_unpacked_row data (w * h)); [exact L | nia | exact Hsr]. }
  replace (y * (8 * w) + x)
    with (y / 8 * (8 * (w * 8)) + (y mod 8 * (w * 8) + (x / 8 * 8 + x mod 8)))
    by nia.
  rewrite (@nth_flat_map_uniform _ _ _ (8 * (w * 8)) h); [| | exact Qy | nia].
  - rewrite (@nth_flat_map_uniform _ _ _ (w * 8) 8); [| | lia | nia].
    + rewrite (@nth_flat_map_uniform _ _ _ 8 w); [reflexivity | | exact Qx | lia].
      intros tc Htc. apply Ltile; [exact Qy | lia | exact Htc].
    + intros sr Hsr. apply length_flat_map_uniform. intros tc Htc.
      apply Ltile; [exact Qy | exact Hsr | exact Htc].
  - intros tr Htr. apply length_flat_map_uniform. intros sr Hsr.
    apply length_flat_map_uniform. intros tc Htc.
    apply Ltile; [exact Htr | exact Hsr | exact Htc].
Qed.

End BytestringFacts.

Section PixelFacts.

Lemma nth_tile_row (data : list byte) (k i j : nat) :
  i < 8 -> j < 4 ->
  nth j (Spec.tile_row (Spec.tile data k) i) x00
  = nth (k * 32 + i * 4 + j) data x00.
Proof.
  intros Hi Hj. unfold Spec.tile_row, Spec.tile.
  rewrite nth_firstn. destruct (Nat.ltb_spec j 4); [| lia].
  rewrite nth_skipn, nth_firstn.
  destruct (Nat.ltb_spec (i * 4 + j) 32); [| lia].
  rewrite nth_skipn. f_equal. lia.
Qed.

Lemma nth_unpack_row (r : list byte) (c : nat) :
  length r = 4 -> c < 8 ->
  nth c (Spec.unpack_row r) 0%Z
  = if Nat.even c
    then Z.land (byte_val (nth (c / 2) r x00)) 0x0F
    else Z.shiftr (byte_val (nth (c / 2) r x00)) 4.
Proof.
  intros L Hc. destruct r as [| b0 [| b1 [| b2 [| b3 [| b4 tl]]]]];
    cbn in L; try discriminate L.
  do 8 (destruct c as [| c]; [reflexivity |]). lia.
Qed.

Lemma even_mod_8 (x : nat) : Nat.even (x mod 8) = Nat.even x.
Proof.
  rewrite (Nat.div_mod_eq x 8) at 2.
  rewrite Nat.even_add, Nat.even_mul. cbn [Nat.even orb].
  destruct (Nat.even (x mod 8)); reflexivity.
Qed.

(** The scan shows at [(x, y)] the nibble that the specification names. *)
Lemma scan_index_at (data : list byte) (w h x y : nat) :
  length data = w * h * 32 -> x < 8 * w -> y < 8 * h ->
  nth (y * (8 * w) + x) (Spec.scan data w h) 0%Z
  = Spec.index_at data w x y.
Proof.
  intros L Hx Hy. rewrite (@scan_at data w h x y L Hx Hy).
  pose proof (Nat.mod_upper_bound x 8) as Mx.
  pose proof (Nat.mod_upper_bound y 8) as My.
  assert (Qx : x / 8 < w) by (apply Nat.Div0.div_lt_upper_bound; lia).
  assert (Qy : y / 8 < h) by (apply Nat.Div0.div_lt_upper_bound; lia).
  assert (Qc : x mod 8 / 2 < 4)
    by (apply Nat.Div0.div_lt_upper_bound; lia).
  rewrite nth_unpack by lia.
  rewrite nth_unpack_row; [| | lia].
  - rewrite even_mod_8, nth_tile_row by lia. reflexivity.
  - apply length_tile_row_full; [| lia].
    apply (@length_tile_full data (w * h)); [exact L | nia].
Qed.

Lemma scan_range (data : list byte) (w h : nat) :
  Forall (fun v => (0 <= v <= 15)%Z) (Spec.scan data w h).
Proof.
  unfold Spec.scan.
  apply Forall_flat_map, Forall_forall. intros y _.
  apply Forall_flat_map, Forall_forall. intros i Hi.
  apply Forall_flat_map, Forall_forall. intros x _.
  apply in_seq in Hi. rewrite nth_unpack by lia.
  apply unpack_row_range.
Qed.

Lemma apply_palette_total (p : Palette) (bs : list Z) :
  palette16 p -> Forall (fun v => (0 <= v <= 15)%Z) bs ->
  apply_palette p bs
  = Ok (flat_map (fun i => nth (Z.to_nat i) (Palette.colors p) []) bs).
Proof.
  intros [L _] Hbs. unfold apply_palette.
  change (flat_map ?g bs) with ([] ++ flat_map g bs).
  apply for_appends. intros i s Hi.
  rewrite Forall_forall in Hbs. specialize (Hbs i Hi).
  assert (Hn : Z.to_nat i < length (Palette.colors p)) by lia.
  rewrite (getitem_some _ _ (nth_error_nth' _ [] Hn)).
  reflexivity.
Qed.

Lemma palette16_color (p : Palette) (i : Z) :
  palette16 p -> (0 <= i <= 15)%Z ->
  color_ok (nth (Z.to_nat i) (Palette.colors p) []).
Proof.
  intros [L H] Hi. rewrite Forall_forall in H. apply H, nth_In. lia.
Qed.

Lemma bytearray_samples (l : list Z) :
  Forall sample_ok l -> bytearray l = Ok l.
Proof.
  intros H. unfold bytearray.
  rewrite (proj2 (forallb_forall _ l)); [reflexivity |].
  rewrite Forall_forall in H. intros v Hv. specialize (H v Hv).
  unfold sample_ok in H. apply andb_true_iff. split; lia.
Qed.

(** The buffer handed to the pixbuf: three samples per pixel index. *)
Lemma Image_result_full (data : list byte) (w h : nat) (p : Palette) :
  0 < w -> length data = w * h * 32 -> palette16 p ->
  Image_result data (w, h) p
  = Ok (flat_map (fun i => nth (Z.to_nat i) (Palette.colors p) [])
          (Spec.scan data w h)).
Proof.
  intros Hw L Hp. unfold Image_result.
  rewrite Image_bytestring_full by assumption. cbn [bind].
  rewrite apply_palette_total by (exact Hp || apply scan_range).
  cbn [bind]. apply bytearray_samples.
  apply Forall_flat_map. eapply Forall_impl; [| apply scan_range].
  intros i Hi. exact (proj2 (palette16_color Hp Hi)).
Qed.

Lemma nth_flat_map_pieces (B C : Type) (g : B -> list C) (d0 : B) (d : C)
    (m : nat) (l : list B) (n c : nat) :
  Forall (fun a => length (g a) = m) l ->
  n < length l -> c < m ->
  nth (n * m + c) (flat_map g l) d = nth c (g (nth n l d0)) d.
Proof.
  intros H. revert n. induction H as [| a tl Ha Htl IH]; intros n Hn Hc;
    cbn [length] in Hn; [lia |].
  cbn [flat_map]. destruct n as [| n].
  - cbn [Nat.mul Nat.add nth]. apply app_nth1. rewrite Ha. exact Hc.
  - rewrite app_nth2 by (rewrite Ha; lia). rewrite Ha. cbn [nth].
    replace (S n * m + c - m) with (n * m + c) by lia.
    apply IH; lia.
Qed.

Lemma nth_map_seq (B : Type) (f : nat -> B) (d : B) (n k : nat) :
  k < n -> nth k (map f (seq 0 n)) d = f k.
Proof.
  intros Hk.
  rewrite (nth_indep _ d (f 0)) by (rewrite length_map, length_seq; lia).
  rewrite map_nth, seq_nth by lia. reflexivity.
Qed.

Lemma get_pixel_new_from_data (data : list Z) (w h : nat) :
  0 < w -> 0 < h ->
  exists P,
    new_from_data data w h (w * 3) = Some P
    /\ width P = w /\ height P = h
    /\ length (pixels P) = w * h
    /\ (forall x y, x < w -> y < h ->
          get_pixel P x y
          = Some (sample data (3 * (y * w + x)),
                  sample data (3 * (y * w + x) + 1),
                  sample data (3 * (y * w + x) + 2))).
Proof.
  intros Hw Hh. unfold new_from_data.
  destruct (Nat.ltb_spec 0 w); [| lia].
  destruct (Nat.ltb_spec 0 h); [| lia]. cbn [andb].
  eexists. split; [reflexivity |]. cbn [width height pixels].
  assert (Lp : forall a, a < h ->
    length (map (fun x0 => (sample data (a * (w * 3) + 3 * x0),
                            sample data (a * (w * 3) + 3 * x0 + 1),
                            sample data (a * (w * 3) + 3 * x0 + 2)) : rgb)
              (seq 0 w)) = w)
    by (intros a _; rewrite length_map, length_seq; reflexivity).
  split; [reflexivity |]. split; [reflexivity |].
  split; [rewrite (length_flat_map_uniform _ Lp); lia |].
  intros x y Hx Hy. unfold get_pixel. cbn [width height pixels].
  destruct (Nat.ltb_spec x w); [| lia].
  destruct (Nat.ltb_spec y h); [| lia]. cbn [andb].
  rewrite (nth_error_nth' _ (0, 0, 0)%Z)
    by (rewrite (length_flat_map_uniform _ Lp); nia).
  rewrite (nth_flat_map_uniform _ _ Lp) by lia.
  rewrite nth_map_seq by exact Hx.
  do 2 f_equal; [f_equal |]; f_equal; lia.
Qed.

End PixelFacts.

Section PixbufFacts.

Lemma nearest_double (d n : nat) : 0 < n -> nearest d (n * 2) n = d / 2.
Proof.
  intros Hn. unfold nearest.
  replace (2 * (n * 2)) with (4 * n) by lia.
  rewrite Nat.Div0.div_mul_cancel_r by lia.
  pose proof (Nat.div_mod_eq d 2) as D.
  pose proof (Nat.mod_upper_bound d 2) as M.
  symmetry. apply (Nat.div_unique (2 * d + 1) 4 (d / 2) (2 * (d mod 2) + 1));
    lia.
Qed.

(** Doubling a pixbuf with the nearest neighbour: every source pixel
    becomes a 2x2 square. *)
Lemma scale_simple_double (P : Pixbuf) :
  0 < width P -> 0 < height P ->
  length (pixels P) = width P * height P ->
  exists Q,
    scale_simple P (width P * 2) (height P * 2) = Some Q
    /\ width Q = 2 * width P /\ height Q = 2 * height P
    /\ length (pixels Q) = width Q * height Q
    /\ (forall x y, x < 2 * width P -> y < 2 * height P ->
          get_pixel Q x y = get_pixel P (x / 2) (y / 2)).
Proof.
  intros Hw Hh L. unfold scale_simple.
  destruct (Nat.ltb_spec 0 (width P * 2)); [| lia].
  destruct (Nat.ltb_spec 0 (height P * 2)); [| lia]. cbn [andb].
  eexists. split; [reflexivity |]. cbn [width height pixels].
  assert (Lp : forall a, a < height P * 2 ->
    length (map (fun x =>
              nth (nearest a (height P * 2) (height P) * width P
                   + nearest x (width P * 2) (width P))
                (pixels P) (0, 0, 0)%Z)
              (seq 0 (width P * 2))) = width P * 2)
    by (intros a _; rewrite length_map, length_seq; reflexivity).
  split; [lia |]. split; [lia |].
  split; [rewrite (length_flat_map_uniform _ Lp); lia |].
  intros x y Hx Hy. unfold get_pixel. cbn [width height pixels].
  assert (Qx : x / 2 < width P)
    by (apply Nat.Div0.div_lt_upper_bound; lia).
  assert (Qy : y / 2 < height P)
    by (apply Nat.Div0.div_lt_upper_bound; lia).
  destruct (Nat.ltb_spec x (width P * 2)); [| lia].
  destruct (Nat.ltb_spec y (height P * 2)); [| lia].
  destruct (Nat.ltb_spec (x / 2) (width P)); [| lia].
  destruct (Nat.ltb_spec (y / 2) (height P)); [| lia]. cbn [andb].
  rewrite (nth_error_nth' _ (0, 0, 0)%Z)
    by (rewrite (length_flat_map_uniform _ Lp); nia).
  rewrite (nth_flat_map_uniform _ _ Lp) by lia.
  rewrite nth_map_seq by lia.
  rewrite !nearest_double by lia.
  symmetry. apply nth_error_nth'. nia.
Qed.

Lemma Image_init_dummy (w h : nat) (p : Palette) :
  0 < w -> 0 < h ->
  Image_init [] (w, h) p
  = Ok (mkImage (Some (mkPixbuf (w * 8 * 2) (h * 8 * 2)
                         (repeat sentinel ((w * 8 * 2) * (h * 8 * 2)))))).
Proof.
  intros Hw Hh. unfold Image_init, GdkPixbuf.new. cbn [fst snd].
  destruct (Nat.ltb_spec 0 (w * 8 * 2)); [| lia].
  destruct (Nat.ltb_spec 0 (h * 8 * 2)); [| lia].
  reflexivity.
Qed.

Lemma Image_init_data (data : list byte) (size : nat * nat) (p : Palette) :
  0 < length data ->
  Image_init data size p
  = (result <- Image_result data size p ;;
     P <- on_object (new_from_data result (8 * fst size) (8 * snd size)
                       (8 * fst size * 3)) ;;
     Ok (mkImage (scale_simple P (8 * fst size * 2) (8 * snd size * 2)))).
Proof. destruct data; cbn [length]; [lia | reflexivity]. Qed.

Lemma get_pixel_repeat (c : rgb) (w h x y : nat) :
  x < w -> y < h ->
  get_pixel (mkPixbuf w h (repeat c (w * h))) x y = Some c.
Proof.
  intros Hx Hy. unfold get_pixel. cbn [width height pixels].
  destruct (Nat.ltb_spec x w); [| lia].
  destruct (Nat.ltb_spec y h); [| lia]. cbn [andb].
  apply nth_error_repeat. nia.
Qed.

End PixbufFacts.

(** ** Sprite and ROM *)

Section SearchFacts.

Variables (w h : nat) (pal : Palette).
Hypothesis (Hw : 0 < w) (Hh : 0 < h).

Lemma read_data (f : file) (n : nat) :
  fst (read f n) = firstn n (skipn (pos f) (contents f)).
Proof.
  unfold read, slice. cbn [fst]. f_equal. lia.
Qed.

Lemma read_got_length (f : file) (n : nat) :
  length (fst (read f n)) = Nat.min n (length (contents f) - pos f).
Proof. rewrite read_data, length_firstn, length_skipn. reflexivity. Qed.

Lemma Image_init_empty :
  Image_init [] (w, h) pal = Ok (dummy_image (w, h)).
Proof. apply Image_init_dummy; assumption. Qed.

Lemma Image_init_short (data : list byte) :
  0 < length data -> length data < w * h * 32 ->
  Image_init data (w, h) pal = Raise IndexError.
Proof.
  intros Hd L. rewrite Image_init_data by exact Hd.
  unfold Image_result. rewrite Image_bytestring_short by assumption.
  reflexivity.
Qed.

Lemma Image_init_full (data : list byte) :
  palette16 pal -> length data = w * h * 32 ->
  exists P Q,
    new_from_data
      (flat_map (fun i => nth (Z.to_nat i) (Palette.colors pal) [])
         (Spec.scan data w h))
      (8 * w) (8 * h) (8 * w * 3) = Some P
    /\ scale_simple P (8 * w * 2) (8 * h * 2) = Some Q
    /\ Image_init data (w, h) pal = Ok (mkImage (Some Q)).
Proof.
  intros Hp L.
  destruct (@get_pixel_new_from_data
              (flat_map (fun i => nth (Z.to_nat i) (Palette.colors pal) [])
                 (Spec.scan data w h)) (8 * w) (8 * h))
    as (P & HP & WP & HPh & LP & _); [lia | lia |].
  destruct (scale_simple_double P) as (Q & HQ & _); [lia | lia | nia |].
  rewrite WP, HPh in HQ.
  exists P, Q. split; [exact HP |]. split; [exact HQ |].
  rewrite Image_init_data by nia.
  rewrite Image_result_full by assumption. cbn [bind fst snd].
  rewrite HP. cbn [on_object bind]. rewrite HQ. reflexivity.
Qed.

Lemma Sprite_init_short (data : list byte) (os : nat) :
  0 < length data -> length data < w * h * 32 ->
  Sprite_init data os (w, h) pal = Raise IndexError.
Proof.
  intros Hd L. unfold Sprite_init.
  rewrite Image_init_short; [reflexivity | exact Hd | exact L].
Qed.

Lemma Sprite_init_dummy (os : nat) :
  Sprite_init [] os (w, h) pal
  = Ok (mkSprite EmptyString os (w, h) (w * h * 32) pal
          (dummy_image (w, h))).
Proof. unfold Sprite_init. rewrite Image_init_empty. reflexivity. Qed.

Lemma Sprite_init_full (data : list byte) (os : nat) :
  palette16 pal -> length data = w * h * 32 ->
  exists im,
    Image_init data (w, h) pal = Ok im
    /\ Sprite_init data os (w, h) pal
       = Ok (mkSprite EmptyString os (w, h) (w * h * 32) pal im).
Proof.
  intros Hp L. destruct (Image_init_full data Hp L) as (P & Q & _ & _ & E).
  eexists. split; [exact E |]. unfold Sprite_init. rewrite E. reflexivity.
Qed.

Lemma Sprite_init_stamped (data : list byte) (os : nat) (s : Sprite) :
  Sprite_init data os (w, h) pal = Ok s ->
  stamped (w, h) pal os s /\ Image_init data (w, h) pal = Ok (Sprite.image s).
Proof.
  unfold Sprite_init. destruct (Image_init data (w, h) pal) as [im | e];
    cbn [bind]; intros H; inversion H; subst.
  split; [| reflexivity]. repeat split.
Qed.

Lemma read_sprites_step (os : nat) (rest : list nat) (n : nat) (f : file)
    (sprites : list Sprite) :
  read_sprites (os :: rest) n (w, h) pal f sprites
  = match Sprite_init (fst (read f n)) os (w, h) pal with
    | Raise e => (Some e, snd (read f n), sprites)
    | Ok s => read_sprites rest n (w, h) pal (snd (read f n)) (sprites ++ [s])
    end.
Proof. reflexivity. Qed.

(** The loop only reads: it appends to the log and to [sprites]. *)
Lemma read_sprites_grows (oss : list nat) (n : nat) (f : file)
    (sprites : list Sprite) :
  exists r f' evs new,
    read_sprites oss n (w, h) pal f sprites = (r, f', sprites ++ new)
    /\ contents f' = contents f
    /\ reads f' = reads f ++ evs
    /\ length evs <= length oss
    /\ Forall (fun ev => read_size ev = n) evs.
Proof.
  revert f sprites. induction oss as [| os rest IH]; intros f sprites.
  - exists None, f, [], []. cbn [read_sprites]. rewrite !app_nil_r.
    repeat split; auto.
  - rewrite read_sprites_step.
    destruct (Sprite_init (fst (read f n)) os (w, h) pal) as [s | e].
    + destruct (IH (snd (read f n)) (sprites ++ [s]))
        as (r & f' & evs & new & E & C & R & Le & Fa).
      exists r, f', (mkRead (pos f) n (length (fst (read f n))) :: evs),
        (s :: new).
      rewrite E, <- app_assoc. split; [reflexivity |].
      split; [exact C |]. split; [| split].
      * rewrite R. cbn [read snd reads]. rewrite <- app_assoc. reflexivity.
      * cbn [length]. lia.
      * constructor; [reflexivity | exact Fa].
    + exists (Some e), (snd (read f n)),
        [mkRead (pos f) n (length (fst (read f n)))], [].
      rewrite app_nil_r. repeat split; cbn [length]; try lia.
      repeat constructor.
Qed.

(** When the file holds all the records, the loop reads them one after
    the other and makes a sprite of each. *)
Lemma read_sprites_full (oss : list nat) (f : file)
    (sprites : list Sprite) :
  palette16 pal ->
  pos f + length oss * (w * h * 32) <= length (contents f) ->
  exists new,
    read_sprites oss (w * h * 32) (w, h) pal f sprites
    = (None,
       mkFile (contents f) (pos f + length oss * (w * h * 32))
         (reads f
          ++ map (fun j => mkRead (pos f + j * (w * h * 32))
                             (w * h * 32) (w * h * 32))
               (seq 0 (length oss))),
       sprites ++ new)
    /\ Forall2 (stamped (w, h) pal) oss new
    /\ (forall j s, nth_error new j = Some s ->
          Image_init
            (firstn (w * h * 32)
               (skipn (pos f + j * (w * h * 32)) (contents f)))
            (w, h) pal
          = Ok (Sprite.image s)).
Proof.
  intros Hp. revert f sprites.
  induction oss as [| os rest IH]; intros f sprites Hl.
  - exists []. cbn [read_sprites length seq map Nat.mul].
    rewrite !app_nil_r, Nat.add_0_r. destruct f.
    split; [reflexivity |]. split; [constructor |].
    intros [| j] s H; discriminate H.
  - cbn [length] in Hl. rewrite read_sprites_step.
    assert (Lr : length (fst (read f (w * h * 32))) = w * h * 32)
      by (rewrite read_got_length; nia).
    destruct (Sprite_init_full (fst (read f (w * h * 32))) os Hp Lr)
      as (im & Eim & Es).
    rewrite Es.
    destruct (IH (snd (read f (w * h * 32)))
                (sprites ++ [mkSprite EmptyString os (w, h) (w * h * 32)
                               pal im]))
      as (new & E & St & Im).
    { cbn [read snd pos contents]. fold (fst (read f (w * h * 32))).
      unfold slice in *. cbn [read fst] in Lr. unfold slice in Lr.
      rewrite Lr. lia. }
    exists (mkSprite EmptyString os (w, h) (w * h * 32) pal im :: new).
    rewrite E, <- app_assoc.
    split; [| split].
    + cbn [read snd pos contents reads app length].
      cbn [read fst] in Lr. rewrite Lr.
      do 3 f_equal; [lia |]. rewrite <- app_assoc. f_equal.
      cbn [seq map app]. f_equal; [f_equal; lia |].
      rewrite <- seq_shift, map_map. apply map_ext. intros j.
      f_equal. lia.
    + constructor; [repeat split | exact St].
    + intros [| j] s H; cbn [nth_error] in H.
      * inversion H; subst. cbn [Sprite.image].
        rewrite <- Eim, read_data. do 3 f_equal. lia.
      * specialize (Im j s H). rewrite <- Im.
        cbn [read snd pos contents]. cbn [read fst] in Lr. rewrite Lr.
        do 3 f_equal. lia.
Qed.

(** A record cut short by the end of the file stops the loop with
    IndexError, whatever was decoded before it. *)
Lemma read_sprites_short (oss : list nat) (f : file)
    (sprites : list Sprite) (k : nat) :
  palette16 pal -> k < length oss ->
  pos f + k * (w * h * 32) < length (contents f) ->
  length (contents f) < pos f + (k + 1) * (w * h * 32) ->
  exists f' sp,
    read_sprites oss (w * h * 32) (w, h) pal f sprites
    = (Some IndexError, f', sp).
Proof.
  intros Hp. revert f sprites k.
  induction oss as [| os rest IH]; intros f sprites k Hk Hlo Hhi;
    cbn [length] in Hk; [lia |].
  rewrite read_sprites_step.
  pose proof (read_got_length f (w * h * 32)) as Lr.
  destruct k as [| k].
  - rewrite Sprite_init_short by lia. eauto.
  - assert (Lr' : length (fst (read f (w * h * 32))) = w * h * 32) by lia.
    destruct (Sprite_init_full (fst (read f (w * h * 32))) os Hp Lr')
      as (im & _ & ->).
    apply (IH _ _ k); [lia | |];
      cbn [read snd pos contents]; cbn [read fst] in Lr'; rewrite Lr'; lia.
Qed.

(** When every read returns all or nothing, every slot yields a sprite:
    a decoded one, or the dummy one for an empty read. *)
Lemma read_sprites_all_or_nothing (oss : list nat) (f : file)
    (sprites : list Sprite) (r : option exn) (f' : file)
    (sp : list Sprite) (evs : list read_event) :
  palette16 pal ->
  read_sprites oss (w * h * 32) (w, h) pal f sprites = (r, f', sp) ->
  reads f' = reads f ++ evs ->
  Forall all_or_nothing evs ->
  r = None
  /\ exists new,
       sp = sprites ++ new
       /\ Forall2 (stamped (w, h) pal) oss new
       /\ Forall2 (fun ev s =>
                     read_got ev = 0 ->
                     Sprite.image s = dummy_image (w, h)) evs new.
Proof.
  intros Hp. revert f sprites r f' sp evs.
  induction oss as [| os rest IH]; intros f sprites r f' sp evs E R A.
  - cbn [read_sprites] in E. inversion E; subst.
    rewrite <- (app_nil_r (reads f')) in R at 1.
    apply app_inv_head in R. subst evs.
    split; [reflexivity |]. exists []. rewrite app_nil_r.
    repeat split; constructor.
  - rewrite read_sprites_step in E.
    pose proof (read_got_length f (w * h * 32)) as Lr.
    destruct (Sprite_init (fst (read f (w * h * 32))) os (w, h) pal)
      as [s | e] eqn:Es.
    + destruct (read_sprites_grows rest (w * h * 32)
                  (snd (read f (w * h * 32))) (sprites ++ [s]))
        as (r1 & f1 & evs1 & new1 & E1 & _ & R1 & _).
      rewrite E1 in E. inversion E; subst r1 f1 sp. clear E.
      cbn [read snd reads] in R1. rewrite <- app_assoc in R1.
      rewrite R1 in R. apply app_inv_head in R. cbn [app] in R.
      subst evs. inversion A as [| ev0 tl A0 A1]; subst.
      destruct (IH _ _ _ _ _ evs1 E1) as (-> & new & En & St & Du);
        [cbn [read snd reads]; rewrite <- app_assoc; exact R1
        | exact A1 |].
      split; [reflexivity |]. exists (s :: new).
      apply app_inv_head in En. subst new1.
      split; [rewrite <- app_assoc; reflexivity |].
      split; constructor; try assumption.
      * exact (proj1 (Sprite_init_stamped _ _ Es)).
      * cbn [read_got]. intros Z.
        apply length_zero_iff_nil in Z. cbn [read fst] in Es.
        rewrite Z, Sprite_init_dummy in Es. inversion Es. reflexivity.
    + inversion E; subst r f' sp. clear E.
      cbn [read snd reads] in R. apply app_inv_head in R. subst evs.
      inversion A as [| ev0 tl A0 A1]; subst.
      destruct A0 as [Z | Z]; cbn [read_got read_size] in Z.
      * destruct (Sprite_init_full (fst (read f (w * h * 32))) os Hp)
          as (im & _ & Es'); [exact Z |].
        rewrite Es' in Es. discriminate Es.
      * apply length_zero_iff_nil in Z. cbn [read fst] in Es.
        rewrite Z, Sprite_init_dummy in Es. discriminate Es.
Qed.

Lemma Forall2_nth_error_r (A B : Type) (R : A -> B -> Prop)
    (l1 : list A) (l2 : list B) (i : nat) (b : B) :
  Forall2 R l1 l2 -> nth_error l2 i = Some b ->
  exists a, nth_error l1 i = Some a /\ R a b.
Proof.
  intros F. revert i. induction F as [| a0 b0 l1 l2 R0 F IH]; intros i H.
  - destruct i; discriminate H.
  - destruct i as [| i]; cbn [nth_error] in *.
    + inversion H; subst. exists a0. split; [reflexivity | exact R0].
    + exact (IH i H).
Qed.

(** At or after the end of the file every read is empty and every slot
    gets the dummy image. *)
Lemma read_sprites_eof (oss : list nat) (n : nat) (f : file)
    (sprites : list Sprite) :
  length (contents f) <= pos f ->
  exists f' new,
    read_sprites oss n (w, h) pal f sprites = (None, f', sprites ++ new)
    /\ Forall2 (stamped (w, h) pal) oss new
    /\ Forall (fun s => Sprite.image s = dummy_image (w, h)) new.
Proof.
  intros He. revert f sprites He.
  induction oss as [| os rest IH]; intros f sprites He.
  - exists f, []. rewrite app_nil_r. repeat split; constructor.
  - rewrite read_sprites_step.
    assert (Z : fst (read f n) = []).
    { apply length_zero_iff_nil. rewrite read_got_length. lia. }
    rewrite Z, Sprite_init_dummy.
    destruct (IH (snd (read f n))
                (sprites ++ [mkSprite EmptyString os (w, h) (w * h * 32)
                               pal (dummy_image (w, h))]))
      as (f' & new & E & St & Du).
    { cbn [read snd pos contents]. lia. }
    exists f', (mkSprite EmptyString os (w, h) (w * h * 32) pal
                  (dummy_image (w, h)) :: new).
    rewrite E, <- app_assoc. split; [reflexivity |].
    split; constructor; try assumption; repeat split.
Qed.

(** An empty read inside the loop: the loop runs to its end and the slot
    of that read holds the dummy image. *)
Lemma read_sprites_empty_read (oss : list nat) (n : nat) (f : file)
    (sprites : list Sprite) (r : option exn) (f' : file)
    (sp : list Sprite) (evs : list read_event) (i : nat)
    (ev : read_event) :
  0 < n ->
  read_sprites oss n (w, h) pal f sprites = (r, f', sp) ->
  reads f' = reads f ++ evs ->
  nth_error evs i = Some ev -> read_got ev = 0 ->
  r = None
  /\ exists new s,
       sp = sprites ++ new
       /\ Forall2 (stamped (w, h) pal) oss new
       /\ nth_error new i = Some s
       /\ Sprite.image s = dummy_image (w, h).
Proof.
  intros Hn. revert f sprites evs i.
  induction oss as [| os rest IH]; intros f sprites evs i E R Hi Z.
  - cbn [read_sprites] in E. inversion E; subst.
    rewrite <- (app_nil_r (reads f')) in R at 1.
    apply app_inv_head in R. subst evs. destruct i; discriminate Hi.
  - rewrite read_sprites_step in E.
    pose proof (read_got_length f n) as Lr.
    destruct (Sprite_init (fst (read f n)) os (w, h) pal)
      as [s | e] eqn:Es.
    + destruct (read_sprites_grows rest n (snd (read f n))
                  (sprites ++ [s]))
        as (r1 & f1 & evs1 & new1 & E1 & _ & R1 & _).
      rewrite E1 in E. inversion E; subst r1 f1 sp. clear E.
      pose proof R1 as R1'.
      cbn [read snd reads] in R1. rewrite <- app_assoc in R1.
      rewrite R1 in R. apply app_inv_head in R. cbn [app] in R.
      subst evs. destruct i as [| i]; cbn [nth_error] in Hi.
      * inversion Hi; subst ev. cbn [read_got] in Z.
        assert (He : length (contents (snd (read f n)))
                     <= pos (snd (read f n)))
          by (cbn [read fst] in Lr; cbn [read snd pos contents]; lia).
        destruct (read_sprites_eof rest n (snd (read f n))
                    (sprites ++ [s]) He)
          as (f2 & new & E2 & St & _).
        rewrite E2 in E1. inversion E1; subst.
        apply length_zero_iff_nil in Z. cbn [read fst] in Es.
        rewrite Z, Sprite_init_dummy in Es.
        inversion Es; subst s.
        split; [reflexivity |].
        eexists (_ :: new), _.
        split; [rewrite <- app_assoc; reflexivity |].
        split; [constructor; [repeat split | exact St] |].
        split; reflexivity.
      * destruct (IH _ _ _ i E1 R1' Hi Z)
          as (-> & new & s' & En & St & Ns & Is).
        apply app_inv_head in En. subst new1.
        split; [reflexivity |]. exists (s :: new), s'.
        split; [rewrite <- app_assoc; reflexivity |].
        split; [constructor;
                [exact (proj1 (Sprite_init_stamped _ _ Es)) | exact St] |].
        split; assumption.
    + inversion E; subst r f' sp. clear E.
      cbn [read snd reads] in R. apply app_inv_head in R. subst evs.
      destruct i as [| [| i]]; cbn [nth_error] in Hi; try discriminate Hi.
      inversion Hi; subst ev. cbn [read_got] in Z.
      apply length_zero_iff_nil in Z. cbn [read fst] in Es.
      rewrite Z, Sprite_init_dummy in Es. discriminate Es.
Qed.

(** A read that came back short but not empty ends the loop with
    IndexError. *)
Lemma read_sprites_short_read (oss : list nat) (f : file)
    (sprites : list Sprite) (r : option exn) (f' : file)
    (sp : list Sprite) (evs : list read_event) (i : nat)
    (ev : read_event) :
  read_sprites oss (w * h * 32) (w, h) pal f sprites = (r, f', sp) ->
  reads f' = reads f ++ evs ->
  nth_error evs i = Some ev -> 0 < read_got ev < read_size ev ->
  r = Some IndexError.
Proof.
  revert f sprites evs i.
  induction oss as [| os rest IH]; intros f sprites evs i E R Hi Z.
  - cbn [read_sprites] in E. inversion E; subst.
    rewrite <- (app_nil_r (reads f')) in R at 1.
    apply app_inv_head in R. subst evs. destruct i; discriminate Hi.
  - rewrite read_sprites_step in E.
    destruct (Sprite_init (fst (read f (w * h * 32))) os (w, h) pal)
      as [s | e] eqn:Es.
    + destruct (read_sprites_grows rest (w * h * 32)
                  (snd (read f (w * h * 32))) (sprites ++ [s]))
        as (r1 & f1 & evs1 & new1 & E1 & _ & R1 & _).
      rewrite E1 in E. inversion E; subst r1 f1 sp. clear E.
      pose proof R1 as R1'.
      cbn [read snd reads] in R1. rewrite <- app_assoc in R1.
      rewrite R1 in R. apply app_inv_head in R. cbn [app] in R.
      subst evs. destruct i as [| i]; cbn [nth_error] in Hi.
      * inversion Hi; subst ev. cbn [read_got read_size] in Z.
        cbn [read fst] in Es.
        rewrite Sprite_init_short in Es by (assumption || lia).
        discriminate Es.
      * exact (IH _ _ _ i E1 R1' Hi Z).
    + inversion E; subst r f' sp. clear E.
      cbn [read snd reads] in R. apply app_inv_head in R. subst evs.
      destruct i as [| [| i]]; cbn [nth_error] in Hi; try discriminate Hi.
      inversion Hi; subst ev. cbn [read_got read_size] in Z.
      cbn [read fst] in Es.
      rewrite Sprite_init_short in Es by (assumption || lia).
      inversion Es. reflexivity.
Qed.

End SearchFacts.

Section RunFacts.

Variables (fs : filesystem) (self : ROM) (bytes : list byte).
Variables (offset w h paloffset qty : nat).
Hypothesis (Hfile : fs (ROM.filename self) = Ok bytes).

Lemma range_count (start step count : nat) :
  0 < step ->
  range start (start + count * step) step
  = Ok (map (fun k => start + k * step) (seq 0 count)).
Proof.
  intros Hs. rewrite range_from by exact Hs. do 3 f_equal.
  unfold range_len.
  replace (start + count * step - start) with (count * step - 0) by lia.
  exact (range_len_exact count Hs).
Qed.

(** The search up to the decoding of the palette. *)
Lemma search_run_palette_raises (e : exn) :
  Palette_init (firstn 32 (skipn paloffset bytes)) paloffset = Raise e ->
  ROM_search_run fs self offset (w, h) paloffset qty
  = (search_except (Some e) [],
     [mkRead paloffset 32 (Nat.min 32 (length bytes - paloffset))]).
Proof.
  intros Hp. unfold ROM_search_run. rewrite Hfile.
  unfold search_body, read, seek, slice. cbn [contents pos reads].
  replace (paloffset + 32 - paloffset) with 32 by lia.
  rewrite Hp. cbn [reads app].
  rewrite length_firstn, length_skipn. reflexivity.
Qed.

Lemma search_run_sprites (pal : Palette) :
  0 < w -> 0 < h ->
  Palette_init (firstn 32 (skipn paloffset bytes)) paloffset = Ok pal ->
  ROM_search_run fs self offset (w, h) paloffset qty
  = let '(raised, f, sprites) :=
      read_sprites
        (map (fun k => offset + k * (w * h * 32)) (seq 0 qty))
        (w * h * 32) (w, h) pal
        (mkFile bytes offset
           [mkRead paloffset 32 (Nat.min 32 (length bytes - paloffset))])
        [] in
    (search_except raised sprites, reads f).
Proof.
  intros Hw Hh Hp. unfold ROM_search_run. rewrite Hfile.
  unfold search_body, read, seek, slice. cbn [contents pos reads fst snd].
  replace (paloffset + 32 - paloffset) with 32 by lia.
  rewrite Hp. change BLOCK with 32.
  rewrite range_count by nia. cbn [app].
  rewrite length_firstn, length_skipn. reflexivity.
Qed.

End RunFacts.

Section Search.

Variables (fs : filesystem) (self : ROM) (bytes : list byte).
Variables (offset w h paloffset count : nat).
Hypothesis (Hfile : fs (ROM.filename self) = Ok bytes).
Hypothesis (Hw : 0 < w) (Hh : 0 < h).

(** Once the palette is decoded, the outcome of the search is the
    outcome of the loop, and the log is the palette read followed by the
    reads of the loop. *)
Lemma search_run_loop (pal : Palette) :
  Palette_init (firstn 32 (skipn paloffset bytes)) paloffset = Ok pal ->
  exists r f' sp evs,
    read_sprites
      (map (fun k => offset + k * (w * h * 32)) (seq 0 count))
      (w * h * 32) (w, h) pal
      (mkFile bytes offset
         [mkRead paloffset 32 (Nat.min 32 (length bytes - paloffset))])
      []
    = (r, f', sp)
    /\ reads f'
       = [mkRead paloffset 32 (Nat.min 32 (length bytes - paloffset))]
         ++ evs
    /\ ROM_search fs self offset (w, h) paloffset count
       = search_except r sp
    /\ ROM_search_reads fs self offset (w, h) paloffset count
       = mkRead paloffset 32 (Nat.min 32 (length bytes - paloffset))
         :: evs.
Proof.
  intros Hp.
  destruct (@read_sprites_grows w h pal Hw Hh
              (map (fun k => offset + k * (w * h * 32)) (seq 0 count))
              (w * h * 32)
              (mkFile bytes offset
                 [mkRead paloffset 32
                    (Nat.min 32 (length bytes - paloffset))]) [])
    as (r & f' & evs & new & E & _ & R & _).
  exists r, f', new, evs. cbn [app] in E. split; [exact E |].
  split; [exact R |].
  unfold ROM_search, ROM_search_reads.
  rewrite (@search_run_sprites fs self bytes offset w h paloffset count
             Hfile pal Hw Hh Hp), E.
  cbn [fst snd]. rewrite R. split; reflexivity.
Qed.

Lemma search_run_no_palette (e : exn) :
  Palette_init (firstn 32 (skipn paloffset bytes)) paloffset = Raise e ->
  ROM_search_reads fs self offset (w, h) paloffset count
  = [mkRead paloffset 32 (Nat.min 32 (length bytes - paloffset))].
Proof.
  intros Hp. unfold ROM_search_reads.
  rewrite (@search_run_palette_raises fs self bytes offset w h paloffset
             count Hfile e Hp).
  reflexivity.
Qed.

End Search.

(** * Outcomes and traces *)

(** ** [cut] *)

Lemma firstn_add_split (A : Type) (l : list A) (a b : nat) :
  firstn (a + b) l = firstn a l ++ firstn b (skipn a l).
Proof.
  revert l. induction a as [| a IH]; intros l; [reflexivity |].
  destruct l as [| x tl]; cbn [Nat.add firstn skipn app].
  - rewrite firstn_nil. reflexivity.
  - rewrite IH. reflexivity.
Qed.

Lemma concat_chunks (A : Type) (l : list A) (n m : nat) :
  concat (map (fun k => firstn n (skipn (k * n) l)) (seq 0 m))
  = firstn (m * n) l.
Proof.
  induction m as [| m IH]; [reflexivity |].
  rewrite seq_S, map_app, concat_app, IH. cbn [map concat Nat.add].
  rewrite app_nil_r. replace (S m * n) with (m * n + n) by lia.
  symmetry. apply firstn_add_split.
Qed.

(** ** [Image] *)

Lemma flat_map_agree (A B : Type) (f g : A -> list B) (l : list A) :
  (forall a, In a l -> f a = g a) -> flat_map f l = flat_map g l.
Proof.
  induction l as [| a tl IH]; intros H; [reflexivity |].
  cbn [flat_map]. rewrite (H a (or_introl eq_refl)).
  rewrite IH by (intros b Hb; apply H; right; exact Hb). reflexivity.
Qed.

Lemma tile_app (d extra : list byte) (k : nat) :
  k * 32 + 32 <= length d -> Spec.tile (d ++ extra) k = Spec.tile d k.
Proof.
  intros H. unfold Spec.tile. rewrite skipn_app, firstn_app.
  rewrite length_skipn.
  replace (32 - (length d - k * 32)) with 0 by lia.
  cbn [firstn]. apply app_nil_r.
Qed.

Lemma scan_app (d extra : list byte) (w h : nat) :
  length d = w * h * 32 ->
  Spec.scan (d ++ extra) w h = Spec.scan d w h.
Proof.
  intros L. unfold Spec.scan.
  apply flat_map_agree. intros y Hy. apply in_seq in Hy.
  apply flat_map_agree. intros i _.
  apply flat_map_agree. intros x Hx. apply in_seq in Hx.
  rewrite tile_app by nia. reflexivity.
Qed.

Lemma Image_bytestring_enough (data : list byte) (w h : nat) :
  0 < w -> w * h * 32 <= length data ->
  Image_bytestring data (w, h) = Ok (Spec.scan data w h).
Proof.
  intros Hw L. unfold Image_bytestring.
  destruct (Image_blocks_rows data h Hw) as (blocks & -> & Hrow & _).
  cbn [bind fst snd]. change (BLOCK / ROW) with 8. unfold range0.
  change (Ok (Spec.scan data w h)) with (Ok ([] ++ Spec.scan data w h)).
  unfold Spec.scan.
  apply for_appends. intros y s Hy. apply in_seq in Hy.
  apply for_appends. intros i s' Hi. apply in_seq in Hi.
  apply for_appends. intros x s'' Hx. apply in_seq in Hx.
  assert (Hk : (y * w + x) * 32 + 32 <= length data) by nia.
  rewrite Hrow by lia. cbn [bind].
  rewrite nth_unpack by lia.
  apply extract_pixels_full.
  unfold Spec.tile_row, Spec.tile. rewrite !length_chunk. lia.
Qed.

Lemma Image_bytestring_raises (data : list byte) (w h : nat) (e : exn) :
  0 < w -> Image_bytestring data (w, h) = Raise e -> e = IndexError.
Proof.
  intros Hw. unfold Image_bytestring.
  destruct (Image_blocks_rows data h Hw) as (blocks & -> & _ & _).
  cbn [bind fst snd].
  apply for_raises_only. intros y s1 e1.
  apply for_raises_only. intros i s2 e2.
  apply for_raises_only. intros x s3 e3.
  destruct (block_row blocks y x i) as [r | e'] eqn:E; cbn [bind].
  - apply extract_pixels_raises.
  - intros H. inversion H; subst. exact (block_row_raises _ _ _ _ E).
Qed.

Lemma apply_palette_raises (p : Palette) (bs : list Z) (e : exn) :
  apply_palette p bs = Raise e -> e = IndexError.
Proof.
  unfold apply_palette. apply for_raises_only. intros i s e'.
  destruct (getitem_cases (Palette.colors p) (Z.to_nat i))
    as [E | (c & E & _)]; rewrite E; cbn [bind]; intros H; inversion H;
    reflexivity.
Qed.

(** What holds before a loop and is kept by every iteration holds after
    the loop. *)
Lemma for_invariant (A S : Type) (P : S -> Prop)
    (body : A -> S -> result S) (l : list A) :
  (forall x s s', In x l -> P s -> body x s = Ok s' -> P s') ->
  forall s s', P s -> for_ l body s = Ok s' -> P s'.
Proof.
  induction l as [| x tl IH]; intros Hb s s' Hs H; cbn [for_] in H.
  - inversion H; subst. exact Hs.
  - destruct (body x s) as [s1 |] eqn:E; cbn [bind] in H;
      [| discriminate H].
    apply (IH (fun y a b Hy => Hb y a b (or_intror Hy)) s1 s');
      [| exact H].
    exact (Hb x s s1 (or_introl eq_refl) Hs E).
Qed.

Lemma apply_palette_samples (p : Palette) (bs r : list Z) :
  Forall color_ok (Palette.colors p) ->
  apply_palette p bs = Ok r ->
  Forall sample_ok r /\ length r = 3 * length bs.
Proof.
  intros Hc. unfold apply_palette. revert r.
  assert (G : forall l s r,
    Forall sample_ok s ->
    for_ l (fun i result =>
              c <- getitem (Palette.colors p) (Z.to_nat i) ;;
              Ok (result ++ c)) s = Ok r ->
    Forall sample_ok r /\ length r = length s + 3 * length l).
  { induction l as [| i tl IH]; intros s r Hs H; cbn [for_] in H.
    - inversion H; subst. split; [exact Hs | cbn [length]; lia].
    - destruct (getitem_cases (Palette.colors p) (Z.to_nat i))
        as [E | (c & E & N)]; rewrite E in H; cbn [bind] in H;
        [discriminate H |].
      apply nth_error_In in N. rewrite Forall_forall in Hc.
      destruct (Hc c N) as [Lc Sc].
      destruct (IH (s ++ c) r) as [F Lr];
        [apply Forall_app; split; assumption | exact H |].
      split; [exact F |]. rewrite Lr, length_app, Lc. cbn [length]. lia. }
  intros r H. exact (G bs [] r (Forall_nil _) H).
Qed.

(** With positive dimensions and a palette of well-formed colours the
    constructor of [Image] returns an image or raises IndexError. *)
Lemma Image_init_outcome (data : list byte) (w h : nat) (p : Palette) :
  0 < w -> 0 < h -> Forall color_ok (Palette.colors p) ->
  (exists Q, Image_init data (w, h) p = Ok (mkImage (Some Q))
             /\ width Q = 16 * w /\ height Q = 16 * h)
  \/ Image_init data (w, h) p = Raise IndexError.
Proof.
  intros Hw Hh Hc. destruct data as [| b tl] eqn:D.
  - left. rewrite Image_init_dummy by assumption. eexists.
    split; [reflexivity |]. cbn [width height]. lia.
  - rewrite <- D. rewrite Image_init_data by (rewrite D; cbn; lia).
    unfold Image_result.
    destruct (Image_bytestring data (w, h)) as [bs | e] eqn:Eb;
      cbn [bind].
    + destruct (apply_palette p bs) as [r | e] eqn:Ea; cbn [bind].
      * destruct (@apply_palette_samples p bs r Hc Ea) as [Sr _].
        rewrite (bytearray_samples Sr). cbn [bind fst snd].
        unfold new_from_data, scale_simple.
        destruct (Nat.ltb_spec 0 (8 * w)); [| lia].
        destruct (Nat.ltb_spec 0 (8 * h)); [| lia].
        destruct (Nat.ltb_spec 0 (8 * w * 2)); [| lia].
        destruct (Nat.ltb_spec 0 (8 * h * 2)); [| lia].
        cbn [andb on_object bind]. left. eexists.
        split; [reflexivity |]. cbn [width height]. lia.
      * right. f_equal. exact (@apply_palette_raises p bs e Ea).
    + right. f_equal. exact (@Image_bytestring_raises data w h e Hw Eb).
Qed.

(** One pixel index at or above the number of colours is enough for
    IndexError. *)
Lemma Image_init_bad_index (data : list byte) (w h : nat) (p : Palette)
    (x y : nat) :
  0 < w -> 0 < h -> length data = w * h * 32 ->
  x < 8 * w -> y < 8 * h ->
  length (Palette.colors p) <= Z.to_nat (Spec.index_at data w x y) ->
  Image_init data (w, h) p = Raise IndexError.
Proof.
  intros Hw Hh L Hx Hy Hi.
  rewrite Image_init_data by nia. unfold Image_result.
  rewrite Image_bytestring_full by assumption. cbn [bind].
  unfold apply_palette.
  rewrite (@for_raises _ _ _ IndexError _ (Spec.index_at data w x y));
    [reflexivity | | |].
  - intros i s e.
    destruct (getitem_cases (Palette.colors p) (Z.to_nat i))
      as [E | (c & E & _)]; rewrite E; cbn [bind]; intros H;
      inversion H; reflexivity.
  - rewrite <- (@scan_index_at data w h x y L Hx Hy).
    apply nth_In. rewrite length_scan by exact L. nia.
  - intros s. unfold getitem.
    rewrite (proj2 (nth_error_None _ _) Hi). reflexivity.
Qed.

(** ** [ROM.search] *)

Lemma Palette_init_parity (data : list byte) (offset : nat) :
  (Nat.Even (length data) ->
   exists p, Palette_init data offset = Ok p
             /\ Palette.offset p = offset
             /\ 2 * length (Palette.colors p) = length data
             /\ Forall color_ok (Palette.colors p))
  /\ (Nat.Odd (length data) -> Palette_init data offset = Raise StructError).
Proof.
  split.
  - intros [k Hk]. eexists. split; [apply (@Palette_init_even data offset k Hk) |].
    cbn [Palette.offset Palette.colors].
    rewrite length_map, length_seq. repeat split; [lia |].
    apply Forall_map, Forall_forall. intros i _. apply color_of_ok.
  - intros [k Hk]. exact (@Palette_init_odd data offset k Hk).
Qed.

Lemma read_length (f : file) (n : nat) :
  length (fst (read f n)) = Nat.min n (length (contents f) - pos f).
Proof.
  unfold read, slice. cbn [fst]. rewrite length_firstn, length_skipn.
  replace (pos f + n - pos f) with n by lia. reflexivity.
Qed.

Lemma Sprite_init_outcome (data : list byte) (os w h : nat)
    (pal : Palette) :
  0 < w -> 0 < h -> Forall color_ok (Palette.colors pal) ->
  (exists s, Sprite_init data os (w, h) pal = Ok s)
  \/ Sprite_init data os (w, h) pal = Raise IndexError.
Proof.
  intros Hw Hh Hc. unfold Sprite_init.
  destruct (@Image_init_outcome data w h pal Hw Hh Hc)
    as [(Q & -> & _) | ->]; cbn [bind]; [left; eexists |right]; reflexivity.
Qed.

(** The loop of the search, whatever the size and the palette: the
    sprites it has appended carry the offsets of the first slots, and the
    reads it has issued follow one another from the cursor on, each asking
    for [n] bytes and getting what the file has left. *)
Lemma read_sprites_trace (oss : list nat) (n : nat) (size : nat * nat)
    (pal : Palette) (f : file) (sprites : list Sprite) :
  exists r f' new evs,
    read_sprites oss n size pal f sprites = (r, f', sprites ++ new)
    /\ contents f' = contents f
    /\ reads f' = reads f ++ evs
    /\ Forall2 (stamped size pal) (firstn (length new) oss) new
    /\ (r = None -> length new = length oss)
    /\ length evs <= length oss
    /\ (forall i ev, nth_error evs i = Some ev ->
          read_size ev = n
          /\ read_at ev = pos f + list_sum (map read_got (firstn i evs))
          /\ read_got ev = Nat.min n (length (contents f) - read_at ev)).
Proof.
  revert f sprites. induction oss as [| os rest IH]; intros f sprites.
  - exists None, f, [], []. cbn [read_sprites]. rewrite !app_nil_r.
    split; [reflexivity |]. split; [reflexivity |].
    split; [reflexivity |]. split; [constructor |].
    split; [reflexivity |]. split; [cbn [length]; lia |].
    intros [| i] ev H; discriminate H.
  - cbn [read_sprites].
    change (let (data, f') := read f n in
            match Sprite_init data os size pal with
            | Ok sprite =>
                read_sprites rest n size pal f' (sprites ++ [sprite])
            | Raise e => (Some e, f', sprites)
            end)
      with (match Sprite_init (fst (read f n)) os size pal with
            | Ok sprite =>
                read_sprites rest n size pal (snd (read f n))
                  (sprites ++ [sprite])
            | Raise e => (Some e, snd (read f n), sprites)
            end).
    pose proof (read_length f n) as Lr.
    assert (Ev0 : forall tl i ev,
      nth_error (mkRead (pos f) n (length (fst (read f n))) :: tl) i
      = Some ev ->
      (forall j ev', nth_error tl j = Some ev' ->
         read_size ev' = n
         /\ read_at ev' = pos (snd (read f n))
                          + list_sum (map read_got (firstn j tl))
         /\ read_got ev' = Nat.min n (length (contents f) - read_at ev')) ->
      read_size ev = n
      /\ read_at ev
         = pos f
           + list_sum
               (map read_got
                  (firstn i
                     (mkRead (pos f) n (length (fst (read f n))) :: tl)))
      /\ read_got ev = Nat.min n (length (contents f) - read_at ev)).
    { intros tl [| i] ev H Htl; cbn [nth_error] in H.
      - inversion H; subst ev. cbn [read fst] in Lr.
        cbn [read_size read_at read_got firstn map list_sum fold_right].
        repeat split; lia.
      - destruct (Htl i ev H) as (S1 & S2 & S3).
        split; [exact S1 |]. split; [| exact S3].
        rewrite S2.
        cbn [firstn map read_got read snd pos fst].
        unfold list_sum. cbn [fold_right]. lia. }
    destruct (Sprite_init (fst (read f n)) os size pal) as [s | e] eqn:Es.
    + destruct (IH (snd (read f n)) (sprites ++ [s]))
        as (r & f' & new & evs & E & C & R & St & Ln & Le & Ev).
      exists r, f', (s :: new),
        (mkRead (pos f) n (length (fst (read f n))) :: evs).
      rewrite E, <- app_assoc. split; [reflexivity |].
      split; [exact C |]. split.
      { rewrite R. cbn [read snd reads]. rewrite <- app_assoc.
        reflexivity. }
      split.
      { cbn [length firstn]. constructor; [| exact St].
        destruct size as [w h].
        exact (proj1 (@Sprite_init_stamped w h pal _ _ _ Es)). }
      split; [intros Hr; cbn [length]; rewrite (Ln Hr); reflexivity |].
      split; [cbn [length]; lia |].
      intros i ev H. apply (Ev0 evs i ev H).
      intros j ev' H'. exact (Ev j ev' H').
    + exists (Some e), (snd (read f n)), [],
        [mkRead (pos f) n (length (fst (read f n)))].
      rewrite app_nil_r. split; [reflexivity |].
      split; [reflexivity |]. split; [reflexivity |].
      split; [constructor |]. split; [discriminate |].
      split; [cbn [length]; lia |].
      intros i ev H. apply (Ev0 [] i ev H).
      intros [| j] ev' H'; discriminate H'.
Qed.

(** [ROM.search] on a file that opens, step by step. *)
Lemma search_run_opened (fs : filesystem) (self : ROM) (bytes : list byte)
    (offset : nat) (size : nat * nat) (paloffset qty : nat) :
  fs (ROM.filename self) = Ok bytes ->
  ROM_search_run fs self offset size paloffset qty
  = match Palette_init (firstn 32 (skipn paloffset bytes)) paloffset with
    | Raise e =>
        (search_except (Some e) [],
         [mkRead paloffset 32 (Nat.min 32 (length bytes - paloffset))])
    | Ok pal =>
        match range offset (offset + qty * (fst size * snd size * 32))
                (fst size * snd size * 32) with
        | Raise e =>
            (search_except (Some e) [],
             [mkRead paloffset 32
                (Nat.min 32 (length bytes - paloffset))])
        | Ok oss =>
            let '(raised, f, sprites) :=
              read_sprites oss (fst size * snd size * 32) size pal
                (mkFile bytes offset
                   [mkRead paloffset 32
                      (Nat.min 32 (length bytes - paloffset))]) [] in
            (search_except raised sprites, reads f)
        end
    end.
Proof.
  intros Hfile. unfold ROM_search_run. rewrite Hfile.
  unfold search_body, read, seek, slice. cbn [contents pos reads fst snd].
  replace (paloffset + 32 - paloffset) with 32 by lia.
  rewrite length_firstn, length_skipn. change BLOCK with 32.
  destruct (Palette_init (firstn 32 (skipn paloffset bytes)) paloffset)
    as [pal | e]; [| reflexivity].
  cbn [app].
  destruct (range offset (offset + qty * (fst size * snd size * 32))
              (fst size * snd size * 32)); reflexivity.
Qed.

Lemma read_sprites_raises (oss : list nat) (n w h : nat) (pal : Palette)
    (f : file) (sprites : list Sprite) (e : exn) (f' : file)
    (sp : list Sprite) :
  0 < w -> 0 < h -> Forall color_ok (Palette.colors pal) ->
  read_sprites oss n (w, h) pal f sprites = (Some e, f', sp) ->
  e = IndexError.
Proof.
  intros Hw Hh Hc. revert f sprites.
  induction oss as [| os rest IH]; intros f sprites H;
    cbn [read_sprites] in H; [discriminate H |].
  change (let (data, f') := read f n in
          match Sprite_init data os (w, h) pal with
          | Ok sprite =>
              read_sprites rest n (w, h) pal f' (sprites ++ [sprite])
          | Raise e => (Some e, f', sprites)
          end)
    with (match Sprite_init (fst (read f n)) os (w, h) pal with
          | Ok sprite =>
              read_sprites rest n (w, h) pal (snd (read f n))
                (sprites ++ [sprite])
          | Raise e => (Some e, snd (read f n), sprites)
          end) in H.
  destruct (@Sprite_init_outcome (fst (read f n)) os w h pal Hw Hh Hc)
    as [(s & Es) | Es]; rewrite Es in H.
  - exact (IH _ _ H).
  - inversion H. reflexivity.
Qed.

(** A loop of the search that runs to its end has issued one read for each
    slot. *)
Lemma read_sprites_done (oss : list nat) (n : nat) (size : nat * nat)
    (pal : Palette) (f : file) (sprites : list Sprite) (f' : file)
    (sp : list Sprite) :
  read_sprites oss n size pal f sprites = (None, f', sp) ->
  length (reads f') = length (reads f) + length oss.
Proof.
  revert f sprites. induction oss as [| os rest IH]; intros f sprites H;
    cbn [read_sprites] in H.
  - inversion H. cbn [length]. lia.
  - change (let (data, f') := read f n in
            match Sprite_init data os size pal with
            | Ok sprite =>
                read_sprites rest n size pal f' (sprites ++ [sprite])
            | Raise e => (Some e, f', sprites)
            end)
      with (match Sprite_init (fst (read f n)) os size pal with
            | Ok sprite =>
                read_sprites rest n size pal (snd (read f n))
                  (sprites ++ [sprite])
            | Raise e => (Some e, snd (read f n), sprites)
            end) in H.
    destruct (Sprite_init (fst (read f n)) os size pal) as [s | e];
      [| discriminate H].
    rewrite (IH _ _ H). cbn [read snd reads length].
    rewrite length_app. cbn [length]. lia.
Qed.

(** Reads that all returned [n] bytes have returned [n] bytes each. *)
Lemma full_reads_sum (evs : list read_event) (n : nat) :
  Forall (fun e => read_got e = n) evs ->
  list_sum (map read_got evs) = length evs * n.
Proof.
  induction 1 as [| e evs He _ IH]; [reflexivity |].
  cbn [map length Nat.mul]. unfold list_sum in *. cbn [fold_right].
  rewrite IH, He. reflexivity.
Qed.

(** ** [BookmarksForm] and [SearchForm] *)

(** Whatever a search returns, sprite [i] of the result records the
    offset of slot [i] and the size of the call. *)
Lemma search_found_stamped (fs : filesystem) (self : ROM) (offset : nat)
    (size : nat * nat) (paloffset qty : nat) (found : list Sprite) :
  ROM_search fs self offset size paloffset qty = Ok found ->
  forall i s, nth_error found i = Some s ->
    Sprite.offset s = offset + i * (fst size * snd size * 32)
    /\ Sprite.size s = size
    /\ Sprite.length s = fst size * snd size * 32.
Proof.
  intros H i s Hs.
  assert (Nil : forall e, search_except (Some e) [] = Ok found -> False).
  { intros e He. destruct e; cbn in He; try discriminate He.
    inversion He; subst found. destruct i; discriminate Hs. }
  unfold ROM_search in H.
  destruct (fs (ROM.filename self)) as [bytes | e] eqn:Hfile.
  2: { unfold ROM_search_run in H. rewrite Hfile in H. cbn [fst] in H.
       destruct (Nil e H). }
  rewrite (@search_run_opened fs self bytes offset size paloffset qty
             Hfile) in H.
  destruct (Palette_init (firstn 32 (skipn paloffset bytes)) paloffset)
    as [pal | e]; [| destruct (Nil e H)].
  unfold range in H.
  destruct (fst size * snd size * 32) as [| n] eqn:En;
    [destruct (Nil ValueError H) |].
  cbn [fst snd] in H. rewrite <- En in H |- *.
  destruct (read_sprites_trace
              (map (fun k => offset + k * (fst size * snd size * 32))
                 (seq 0 (range_len offset
                           (offset + qty * (fst size * snd size * 32))
                           (fst size * snd size * 32))))
              (fst size * snd size * 32) size pal
              (mkFile bytes offset
                 [mkRead paloffset 32
                    (Nat.min 32 (length bytes - paloffset))]) [])
    as (r & f' & new & evs & E & _ & _ & St & _).
  rewrite E in H. cbn [app fst] in H.
  assert (found = new).
  { destruct r as [e |]; [destruct e |]; cbn in H; try discriminate H;
      inversion H; reflexivity. }
  subst found.
  destruct (Forall2_nth_error_r i St Hs) as (os & Hos & St').
  rewrite nth_error_firstn in Hos.
  destruct (i <? length new); [| discriminate Hos].
  rewrite nth_error_map_seq in Hos.
  destruct (i <? _); [| discriminate Hos]. inversion Hos; subst os.
  destruct St' as (_ & So & Ss & Sl & _).
  repeat split; assumption.
Qed.

Lemma load_sprite_stamped (fs : filesystem) (rom : ROM) (offset : nat)
    (name : string) (paloffset : nat) (size : nat * nat) (s : Sprite) :
  load_sprite fs rom offset (name, paloffset, size) = Ok s ->
  Sprite.offset s = offset /\ Sprite.size s = size
  /\ Sprite.length s = fst size * snd size * 32.
Proof.
  unfold load_sprite.
  assert (Dummy : (palette <- Palette_init [] paloffset ;;
                   Sprite_init [] offset size palette) = Ok s ->
                  Sprite.offset s = offset /\ Sprite.size s = size
                  /\ Sprite.length s = fst size * snd size * 32).
  { cbn [Palette_init bind]. intros H. destruct size as [w h].
    destruct (@Sprite_init_stamped w h _ _ _ _ H)
      as ((_ & So & Ss & Sl & _) & _).
    repeat split; assumption. }
  destruct (ROM_search fs rom offset size paloffset 1) as [found | e] eqn:E;
    cbn [bind].
  - destruct (getitem_cases found 0) as [G | (s0 & G & N)]; rewrite G.
    + exact Dummy.
    + intros H. inversion H; subst s0.
      destruct (@search_found_stamped fs rom offset size paloffset 1 found
                  E 0 s N) as (So & Ss & Sl).
      rewrite Nat.add_0_r in So. repeat split; assumption.
  - destruct e; try (intros H; discriminate H). exact Dummy.
Qed.

(** What the loop of [load] has appended when it stops. *)
Lemma load_items_appends (fs : filesystem) (rom : ROM)
    (items : list (nat * bookmark)) (self : BookmarksForm) :
  exists r new,
    load_items fs rom items self
    = (r,
       mkBookmarksForm (BookmarksForm.sprites self ++ new)
         (BookmarksForm.iconstore self
          ++ map (fun s => mkRow (Image.pixbuf (Sprite.image s))
                             (Sprite.name s ++ newline
                              ++ hex (Sprite.offset s))%string
                             (Sprite.offset s)) new))
    /\ Forall2 (fun (item : nat * bookmark) s =>
                  Sprite.offset s = fst item
                  /\ Sprite.name s = fst (fst (snd item))
                  /\ Sprite.size s = snd (snd item))
         (firstn (length new) items) new
    /\ (r = None -> length new = length items).
Proof.
  revert self. induction items as [| [off [[name pal] size]] rest IH];
    intros self.
  - exists None, []. cbn [load_items map]. rewrite !app_nil_r.
    destruct self. repeat split. constructor.
  - cbn [load_items].
    destruct (load_sprite fs rom off (name, pal, size)) as [s | e] eqn:E.
    + destruct (@load_sprite_stamped fs rom off name pal size s E)
        as (So & Ss & _).
      match goal with
      | |- context [load_items fs rom rest ?st] =>
          destruct (IH st) as (r & new & El & St & Ln)
      end.
      exists r, (set_name s name :: new).
      rewrite El. cbn [BookmarksForm.sprites BookmarksForm.iconstore map
                       fst snd].
      rewrite <- !app_assoc. split; [reflexivity |].
      split; [| intros Hr; cbn [length]; rewrite (Ln Hr); reflexivity].
      cbn [length firstn]. constructor; [| exact St].
      cbn [set_name Sprite.offset Sprite.name Sprite.size fst snd].
      repeat split; assumption.
    + exists (Some e), []. cbn [map]. rewrite !app_nil_r. destruct self.
      repeat split; [constructor | discriminate].
Qed.

(** In a list built from a dictionary, the first sprite that a test on
    the offset accepts is the sprite of the bookmark with that offset. *)
Lemma find_bookmarked (R : nat * bookmark -> Sprite -> Prop)
    (P : Sprite -> bool) (off : nat) (b : bookmark)
    (items : list (nat * bookmark)) (new : list Sprite) :
  (forall item s, R item s -> P s = true -> fst item = off) ->
  (forall s, R (off, b) s -> P s = true) ->
  Forall2 R items new -> NoDup (map fst items) -> In (off, b) items ->
  exists s, find P new = Some s /\ R (off, b) s /\ In s new.
Proof.
  intros Honly Hhit F. induction F as [| item s items new R0 F IH];
    intros Hnd Hin; [destruct Hin |].
  cbn [map] in Hnd. inversion Hnd as [| o tl Hnot Hnd']; subst.
  cbn [find]. destruct (P s) eqn:Ps.
  - pose proof (Honly item s R0 Ps) as Ho.
    destruct Hin as [-> | Hin].
    + exists s. repeat split; [exact R0 | left; reflexivity].
    + exfalso. apply Hnot. rewrite Ho.
      apply (in_map fst) in Hin. exact Hin.
  - destruct Hin as [-> | Hin].
    + rewrite (Hhit s R0) in Ps. discriminate Ps.
    + destruct (IH Hnd' Hin) as (s' & Fs & Rs & Is).
      exists s'. repeat split; [exact Fs | exact Rs | right; exact Is].
Qed.

(** After a [load] that ran to its end on a dictionary, [get_name] of a
    sprite with the offset and the size of a bookmark is the name of the
    bookmark. *)
Lemma load_get_name (fs : filesystem) (rom : ROM)
    (self self' : BookmarksForm) (bookmarks : list (nat * bookmark))
    (off : nat) (name : string) (pal : nat) (size : nat * nat)
    (s' : Sprite) :
  NoDup (map fst bookmarks) ->
  BookmarksForm_load fs rom self bookmarks = (None, self') ->
  In (off, (name, pal, size)) bookmarks ->
  Sprite.offset s' = off -> Sprite.size s' = size ->
  BookmarksForm_get_name self' s' = name.
Proof.
  intros Hnd Hload Hin So' Ss'. unfold BookmarksForm_load in Hload.
  destruct (load_items_appends fs rom bookmarks (mkBookmarksForm [] []))
    as (r & new & E & St & Ln).
  rewrite E in Hload. cbn [BookmarksForm.sprites BookmarksForm.iconstore
                           app] in Hload.
  inversion Hload; subst r self'. clear Hload.
  specialize (Ln eq_refl). rewrite firstn_all2 in St by lia.
  unfold BookmarksForm_get_name. cbn [BookmarksForm.sprites].
  match type of St with
  | Forall2 ?R _ _ =>
      destruct (@find_bookmarked R
                  (fun s0 => (Sprite.offset s' =? Sprite.offset s0)
                             && size_eqb (Sprite.size s') (Sprite.size s0))
                  off (name, pal, size) bookmarks new)
        as (s1 & F1 & R1 & _); [| | exact St | exact Hnd | exact Hin |]
  end.
  - intros item s0 (So0 & _) Hp. apply andb_true_iff in Hp.
    destruct Hp as [Hp _]. apply Nat.eqb_eq in Hp. congruence.
  - intros s0 (So0 & _ & Ss0). cbn [fst snd] in So0, Ss0.
    apply andb_true_iff. split; [apply Nat.eqb_eq; congruence |].
    unfold size_eqb. rewrite Ss', Ss0.
    apply andb_true_iff. split; apply Nat.eqb_refl.
  - rewrite F1. exact (proj1 (proj2 R1)).
Qed.

(** The sprite that [get_sprite] finds has the offset asked for. *)
Lemma get_sprite_offset (self : BookmarksForm) (offset : nat) (s : Sprite) :
  BookmarksForm_get_sprite self offset = Some s ->
  Sprite.offset s = offset /\ In s (BookmarksForm.sprites self).
Proof.
  unfold BookmarksForm_get_sprite. intros H.
  apply find_some in H. destruct H as [Hin Heq].
  apply Nat.eqb_eq in Heq. split; assumption.
Qed.

Lemma sort_found (self : BookmarksForm) (a b : nat) (sa sb : Sprite) :
  BookmarksForm_get_sprite self a = Some sa ->
  BookmarksForm_get_sprite self b = Some sb ->
  BookmarksForm_sort self a b
  = Ok (if Sprite.length sa <? Sprite.length sb then (-1)%Z
        else if Sprite.length sa =? Sprite.length sb
             then if a <? b then (-1)%Z else 1%Z
             else 1%Z).
Proof.
  intros Ha Hb. unfold BookmarksForm_sort. rewrite Ha, Hb.
  cbn [on_object bind].
  rewrite (proj1 (get_sprite_offset _ _ Ha)),
          (proj1 (get_sprite_offset _ _ Hb)).
  destruct (Sprite.length sa <? Sprite.length sb); [reflexivity |].
  destruct (Sprite.length sa =? Sprite.length sb); reflexivity.
Qed.

(** * The claims of the specification *)

(** C1.  For a raw tile buffer of exactly [w*h*32] bytes and a 16-colour
    palette, the decoder builds the pixel indices of the nested loop
    "for tileRow, for subRow, for tileCol: the 8 indices of sub-row subRow
    of tile (tileRow, tileCol)", where the tiles are the consecutive
    32-byte chunks; the buffer it hands to the pixbuf is [8*w] by [8*h]
    pixels in raster order, pixel [(x, y)] showing the palette colour of
    the index that the storage order puts there; with size (2,1), columns
    8..15 of every scanline come from the same sub-row of the second tile.
    The image kept in the sprite is this pixbuf doubled by the nearest
    neighbour. *)
Theorem assemble_scan_order (data : list byte) (w h : nat) (p : Palette) :
  0 < w -> 0 < h -> length data = w * h * 32 -> palette16 p ->
  exists P Q,
    Image_bytestring data (w, h) = Ok (Spec.scan data w h)
    /\ Image_result data (w, h) p
       = Ok (flat_map (fun i => nth (Z.to_nat i) (Palette.colors p) [])
               (Spec.scan data w h))
    /\ new_from_data
         (flat_map (fun i => nth (Z.to_nat i) (Palette.colors p) [])
            (Spec.scan data w h))
         (8 * w) (8 * h) (8 * w * 3) = Some P
    /\ width P = 8 * w /\ height P = 8 * h
    /\ length (pixels P) = (8 * w) * (8 * h)
    /\ (forall x y, x < 8 * w -> y < 8 * h ->
          nth (y * (8 * w) + x) (Spec.scan data w h) 0%Z
          = Spec.index_at data w x y
          /\ exists r g b,
               nth_error (Palette.colors p)
                 (Z.to_nat (Spec.index_at data w x y)) = Some [r; g; b]
               /\ get_pixel P x y = Some (r, g, b))
    /\ (w = 2 -> h = 1 -> forall x y, 8 <= x < 16 -> y < 8 ->
          Spec.index_at data w x y
          = nth (x - 8) (nth y (Spec.unpack (Spec.tile data 1)) []) 0%Z)
    /\ scale_simple P (8 * w * 2) (8 * h * 2) = Some Q
    /\ Image_init data (w, h) p = Ok (mkImage (Some Q))
    /\ (forall x y, x < 16 * w -> y < 16 * h ->
          get_pixel Q x y = get_pixel P (x / 2) (y / 2)).
Proof.
  intros Hw Hh L Hp.
  destruct (@get_pixel_new_from_data
              (flat_map (fun i => nth (Z.to_nat i) (Palette.colors p) [])
                 (Spec.scan data w h)) (8 * w) (8 * h))
    as (P & HP & WP & HPh & LP & GP); [lia | lia |].
  destruct (scale_simple_double P) as (Q & HQ & _ & _ & _ & GQ);
    [lia | lia | nia |].
  rewrite WP, HPh in HQ, GQ.
  exists P, Q.
  split; [apply Image_bytestring_full; assumption |].
  split; [apply Image_result_full; assumption |].
  split; [exact HP |]. split; [exact WP |]. split; [exact HPh |].
  split; [exact LP |].
  split; [| split; [| split; [| split]]].
  - intros x y Hx Hy.
    pose proof (@scan_index_at data w h x y L Hx Hy) as Hidx.
    split; [exact Hidx |].
    pose proof (scan_range data w h) as Hr.
    assert (Hn : y * (8 * w) + x < length (Spec.scan data w h))
      by (rewrite length_scan by exact L; nia).
    assert (Hi : (0 <= Spec.index_at data w x y <= 15)%Z).
    { rewrite <- Hidx. rewrite Forall_forall in Hr. apply Hr, nth_In, Hn. }
    destruct (palette16_color Hp Hi) as [Lc _].
    assert (Hpieces : Forall
      (fun a => length (nth (Z.to_nat a) (Palette.colors p) []) = 3)
      (Spec.scan data w h)).
    { eapply Forall_impl; [| exact Hr].
      intros a Ha. exact (proj1 (palette16_color Hp Ha)). }
    assert (S : forall c, c < 3 ->
      sample (flat_map (fun i => nth (Z.to_nat i) (Palette.colors p) [])
                (Spec.scan data w h)) (3 * (y * (8 * w) + x) + c)
      = nth c (nth (Z.to_nat (Spec.index_at data w x y))
                 (Palette.colors p) []) 0%Z).
    { intros c Hc. unfold sample.
      replace (3 * (y * (8 * w) + x) + c)
        with ((y * (8 * w) + x) * 3 + c) by lia.
      rewrite (@nth_flat_map_pieces _ _ _ 0%Z 0%Z 3 _ _ _ Hpieces Hn Hc).
      rewrite Hidx. reflexivity. }
    rewrite (GP x y Hx Hy).
    pose proof (S 0) as S0. rewrite Nat.add_0_r in S0.
    rewrite S0, (S 1), (S 2) by lia.
    assert (Hlt : Z.to_nat (Spec.index_at data w x y)
                  < length (Palette.colors p))
      by (destruct Hp as [L16 _]; lia).
    rewrite (nth_error_nth' _ [] Hlt).
    destruct (nth (Z.to_nat (Spec.index_at data w x y))
                (Palette.colors p) []) as [| r [| g [| b [| z tl]]]];
      cbn in Lc; try discriminate Lc.
    exists r, g, b. split; reflexivity.
  - intros -> -> x y Hx Hy.
    rewrite <- (@scan_index_at data 2 1 x y L) by lia.
    rewrite (@scan_at data 2 1 x y L) by lia.
    rewrite (Nat.div_small y 8), (Nat.mod_small y 8) by lia.
    assert (Dx : x / 8 = 1)
      by (symmetry; apply (Nat.div_unique x 8 1 (x - 8)); lia).
    assert (Mx : x mod 8 = x - 8)
      by (symmetry; apply (Nat.mod_unique x 8 1 (x - 8)); lia).
    rewrite Dx, Mx. reflexivity.
  - exact HQ.
  - rewrite Image_init_data by nia.
    rewrite Image_result_full by assumption. cbn [bind fst snd].
    rewrite HP. cbn [on_object bind]. rewrite HQ. reflexivity.
  - intros x y Hx Hy. apply GQ; lia.
Qed.

Lemma assemble_scan_order_witness :
  exists P Q,
    Image_bytestring (repeat x21 64) (2, 1)
    = Ok (Spec.scan (repeat x21 64) 2 1)
    /\ get_pixel P 9 3 = Some (16, 0, 0)%Z
    /\ get_pixel Q 19 7 = Some (16, 0, 0)%Z.
Proof.
  assert (Hp : palette16
                 (mkPalette 0 (map (fun i => Spec.color_of (Z.of_nat i))
                                 (seq 0 16)))).
  { split; [reflexivity |].
    apply Forall_map, Forall_forall. intros i _. apply color_of_ok. }
  destruct (@assemble_scan_order (repeat x21 64) 2 1
              (mkPalette 0 (map (fun i => Spec.color_of (Z.of_nat i))
                              (seq 0 16))))
    as (P & Q & Hb & _ & _ & _ & _ & _ & Hpx & _ & _ & _ & HQ);
    [lia | lia | reflexivity | exact Hp |].
  exists P, Q. split; [exact Hb |].
  assert (HP : get_pixel P 9 3 = Some (16, 0, 0)%Z).
  { destruct (Hpx 9 3) as (_ & r & g & b & Hc & Hg); [lia | lia |].
    rewrite Hg. vm_compute in Hc. inversion Hc. reflexivity. }
  split; [exact HP |].
  rewrite (HQ 19 7) by lia. exact HP.
Defined.

(** C2.  A palette record of exactly 32 bytes decodes to exactly 16
    colours; colour [i] is read from the little-endian 16-bit value [c] of
    bytes [2i], [2i+1] as R = (c & 0x001F)*8, G = ((c & 0x03E0) >> 5)*8,
    B = ((c & 0x7C00) >> 10)*8; every sample is one of 0, 8, ..., 248 and
    never 255; bytes 00 00 give (0,0,0) and bytes FF 7F give
    (248,248,248). *)
Theorem palette_decode_32 (data : list byte) (offset : nat) :
  length data = 32 ->
  exists p,
    Palette_init data offset = Ok p
    /\ Palette.offset p = offset
    /\ length (Palette.colors p) = 16
    /\ (forall i, i < 16 ->
          nth_error (Palette.colors p) i
          = Some [ (Z.land (Spec.le16 data i) 0x001F) * 8
                 ; (Z.shiftr (Z.land (Spec.le16 data i) 0x03E0) 5) * 8
                 ; (Z.shiftr (Z.land (Spec.le16 data i) 0x7C00) 10) * 8 ]%Z)
    /\ Forall (Forall five_bit_sample) (Palette.colors p)
    /\ Forall (Forall (fun v => (0 <= v <= 248)%Z /\ v <> 255%Z))
         (Palette.colors p)
    /\ (forall i, i < 16 ->
          nth (2 * i) data x00 = x00 -> nth (2 * i + 1) data x00 = x00 ->
          nth_error (Palette.colors p) i = Some [0; 0; 0]%Z)
    /\ (forall i, i < 16 ->
          nth (2 * i) data x00 = xff -> nth (2 * i + 1) data x00 = x7f ->
          nth_error (Palette.colors p) i = Some [248; 248; 248]%Z).
Proof.
  intros L.
  assert (E : Palette_init data offset
              = Ok (mkPalette offset
                      (map (fun i => Spec.color_of (Spec.le16 data i))
                         (seq 0 16))))
    by (apply Palette_init_even; lia).
  assert (N : forall i, i < 16 ->
    nth_error (map (fun i => Spec.color_of (Spec.le16 data i)) (seq 0 16)) i
    = Some (Spec.color_of (Spec.le16 data i))).
  { intros i Hi. rewrite nth_error_map_seq.
    destruct (Nat.ltb_spec i 16); [reflexivity | lia]. }
  eexists. split; [exact E |]. cbn [Palette.offset Palette.colors].
  split; [reflexivity |].
  split; [rewrite length_map, length_seq; reflexivity |].
  split; [exact N |].
  split; [apply Forall_map, Forall_forall; intros i _;
          apply color_of_five_bit |].
  split.
  { apply Forall_map, Forall_forall. intros i _.
    eapply Forall_impl; [| apply color_of_five_bit].
    intros v (q & -> & Hq). lia. }
  split; intros i Hi H0 H1; rewrite (N i Hi); unfold Spec.le16;
    rewrite H0, H1; reflexivity.
Qed.

Lemma palette_decode_32_witness :
  exists p,
    Palette_init ([x00; x00; xff; x7f] ++ repeat x1f 28) 7 = Ok p
    /\ firstn 3 (Palette.colors p)
       = [[0; 0; 0]; [248; 248; 248]; [248; 192; 56]]%Z.
Proof.
  destruct (@palette_decode_32 ([x00; x00; xff; x7f] ++ repeat x1f 28) 7)
    as (p & E & _ & L & N & _); [reflexivity |].
  exists p. split; [exact E |].
  pose proof (N 0) as N0. pose proof (N 1) as N1. pose proof (N 2) as N2.
  destruct (Palette.colors p) as [| c0 [| c1 [| c2 tl]]];
    cbn in L; try discriminate L.
  cbn in N0, N1, N2.
  specialize (N0 ltac:(lia)). specialize (N1 ltac:(lia)).
  specialize (N2 ltac:(lia)).
  inversion N0. inversion N1. inversion N2. reflexivity.
Defined.

(** C3.  For a 32-byte tile, the loops of the decoder (run on that one
    tile) yield its 8 rows of 4 bytes one after the other, each byte [v]
    giving [v & 0x0F] and then [v >> 4]: row [i] is b0low, b0high, b1low,
    b1high, b2low, b2high, b3low, b3high for the bytes [4i .. 4i+3]; every
    index is in 0..15; a row 21 00 00 00 yields [1,2,0,0,0,0,0,0]. *)
Theorem unpack_tile (t : list byte) :
  length t = 32 ->
  exists rows,
    Image_bytestring t (1, 1) = Ok (concat rows)
    /\ rows = Spec.unpack t
    /\ length rows = 8
    /\ (forall i, i < 8 ->
          nth i rows []
          = [ Z.land (byte_val (nth (4 * i) t x00)) 0x0F
            ; Z.shiftr (byte_val (nth (4 * i) t x00)) 4
            ; Z.land (byte_val (nth (4 * i + 1) t x00)) 0x0F
            ; Z.shiftr (byte_val (nth (4 * i + 1) t x00)) 4
            ; Z.land (byte_val (nth (4 * i + 2) t x00)) 0x0F
            ; Z.shiftr (byte_val (nth (4 * i + 2) t x00)) 4
            ; Z.land (byte_val (nth (4 * i + 3) t x00)) 0x0F
            ; Z.shiftr (byte_val (nth (4 * i + 3) t x00)) 4 ])
    /\ Forall (Forall (fun v => (0 <= v <= 15)%Z)) rows
    /\ (forall i, i < 8 ->
          firstn 4 (skipn (4 * i) t) = [x21; x00; x00; x00] ->
          nth i rows [] = [1; 2; 0; 0; 0; 0; 0; 0]%Z).
Proof.
  intros L.
  assert (T0 : Spec.tile t 0 = t).
  { unfold Spec.tile. cbn [Nat.mul skipn]. apply firstn_all2. lia. }
  assert (R : forall i, i < 8 ->
    Spec.tile_row t i
    = [nth (4 * i) t x00; nth (4 * i + 1) t x00;
       nth (4 * i + 2) t x00; nth (4 * i + 3) t x00]).
  { intros i Hi.
    pose proof (@nth_tile_row t 0 i) as N. rewrite T0 in N.
    pose proof (length_tile_row_full t L Hi) as Lr.
    pose proof (N 0 Hi) as N0. pose proof (N 1 Hi) as N1.
    pose proof (N 2 Hi) as N2. pose proof (N 3 Hi) as N3.
    destruct (Spec.tile_row t i) as [| a [| b [| c [| d [| e tl]]]]];
      cbn in Lr; try discriminate Lr.
    cbn [nth] in N0, N1, N2, N3.
    rewrite N0, N1, N2, N3 by lia. cbn [Nat.mul Nat.add].
    f_equal; [| f_equal; [| f_equal; [| f_equal]]]; f_equal; lia. }
  exists (Spec.unpack t).
  split.
  { rewrite Image_bytestring_full by (lia || (cbn; lia)).
    f_equal. unfold Spec.scan. cbn [seq flat_map Nat.mul Nat.add].
    rewrite T0, !nth_unpack by lia.
    unfold Spec.unpack. cbn [seq map concat].
    rewrite !app_nil_r. reflexivity. }
  split; [reflexivity |].
  split; [reflexivity |].
  split.
  { intros i Hi. rewrite nth_unpack by exact Hi.
    rewrite (R i Hi). reflexivity. }
  split.
  { unfold Spec.unpack. apply Forall_map, Forall_forall.
    intros i _. apply unpack_row_range. }
  intros i Hi Hrow. rewrite nth_unpack by exact Hi.
  unfold Spec.tile_row. replace (i * 4) with (4 * i) by lia.
  rewrite Hrow. reflexivity.
Qed.

Lemma unpack_tile_witness :
  exists rows,
    Image_bytestring ([x21; x00; x00; x00] ++ repeat x00 28) (1, 1)
    = Ok (concat rows)
    /\ nth 0 rows [] = [1; 2; 0; 0; 0; 0; 0; 0]%Z.
Proof.
  destruct (@unpack_tile ([x21; x00; x00; x00] ++ repeat x00 28))
    as (rows & E & _ & _ & _ & _ & H); [reflexivity |].
  exists rows. split; [exact E |].
  apply (H 0); [lia | reflexivity].
Defined.

(** C4 (as the code has it).  On a source that opens, and for a size with
    both components at least 1, a block being 32 bytes.  Whenever [search]
    returns, it has issued exactly one read of 32 bytes at [paloffset] and
    then [count] reads asking for [length = w*h*32] bytes each; the first
    of them starts at [offset] and each next one where the bytes returned
    so far end, so that read [i] starts at [offset + i*length] when the
    sprite reads before it returned all their bytes; and it returns
    [count] sprites in that order, sprite [i] recording the offset
    [offset + i*length], all of them carrying the one palette decoded for
    the call.  On a source that holds the palette record and the [count]
    sprite records, [search] does return, its reads are exactly the read
    of the palette followed by the reads of [length] bytes at
    [offset + i*length] for [i] in [0..count), in that order, and sprite
    [i] is decoded from record [i]. *)
Theorem search_reads_in_order (fs : filesystem) (self : ROM)
    (bytes : list byte) (offset w h paloffset count : nat) :
  fs (ROM.filename self) = Ok bytes ->
  0 < w -> 0 < h ->
  BLOCK = 32
  /\ (forall sprites,
        ROM_search fs self offset (w, h) paloffset count = Ok sprites ->
        exists pal evs,
          Palette_init (firstn 32 (skipn paloffset bytes)) paloffset
          = Ok pal
          /\ ROM_search_reads fs self offset (w, h) paloffset count
             = mkRead paloffset 32 (Nat.min 32 (length bytes - paloffset))
               :: evs
          /\ length evs = count
          /\ (forall i ev, nth_error evs i = Some ev ->
                read_size ev = w * h * 32
                /\ read_at ev
                   = offset + list_sum (map read_got (firstn i evs))
                /\ read_got ev
                   = Nat.min (w * h * 32) (length bytes - read_at ev)
                /\ (Forall (fun e => read_got e = w * h * 32)
                      (firstn i evs) ->
                    read_at ev = offset + i * (w * h * 32)))
          /\ length sprites = count
          /\ (forall i s, nth_error sprites i = Some s ->
                Sprite.offset s = offset + i * (w * h * 32)
                /\ Sprite.length s = w * h * 32
                /\ Sprite.size s = (w, h)
                /\ Sprite.palette s = pal))
  /\ (paloffset + 32 <= length bytes ->
      offset + count * (w * h * 32) <= length bytes ->
      exists pal sprites,
        BLOCK = 32
        /\ Palette_init (firstn 32 (skipn paloffset bytes)) paloffset
           = Ok pal
        /\ ROM_search fs self offset (w, h) paloffset count = Ok sprites
        /\ ROM_search_reads fs self offset (w, h) paloffset count
           = Spec.expected_reads offset (w * h * 32) paloffset count
        /\ length sprites = count
        /\ (forall i s, nth_error sprites i = Some s ->
              Sprite.offset s = offset + i * (w * h * 32)
              /\ Sprite.length s = w * h * 32
              /\ Sprite.size s = (w, h)
              /\ Sprite.palette s = pal
              /\ Image_init
                   (firstn (w * h * 32)
                      (skipn (offset + i * (w * h * 32)) bytes))
                   (w, h) pal
                 = Ok (Sprite.image s))).
Proof.
  intros Hfile Hw Hh. split; [reflexivity |]. split.
  - intros sprites Hs.
    destruct (Palette_init_parity (firstn 32 (skipn paloffset bytes))
                paloffset) as [Hpe Hpo].
    rewrite length_firstn, length_skipn in Hpe, Hpo.
    assert (Hrun := @search_run_opened fs self bytes offset (w, h)
                      paloffset count Hfile).
    cbn [fst snd] in Hrun.
    destruct (Nat.Even_or_Odd (Nat.min 32 (length bytes - paloffset)))
      as [He | Ho].
    2: { exfalso. unfold ROM_search in Hs.
         rewrite Hrun, (Hpo Ho) in Hs. discriminate Hs. }
    destruct (Hpe He) as (pal & Ep & _ & _ & Hc).
    rewrite Ep in Hrun. rewrite range_count in Hrun by nia.
    destruct (read_sprites_trace
                (map (fun k => offset + k * (w * h * 32)) (seq 0 count))
                (w * h * 32) (w, h) pal
                (mkFile bytes offset
                   [mkRead paloffset 32
                      (Nat.min 32 (length bytes - paloffset))]) [])
      as (r & f' & new & evs & E & _ & R & St & Ln & _ & Ev).
    rewrite E in Hrun. cbn [app] in Hrun, E.
    unfold ROM_search in Hs. unfold ROM_search_reads.
    rewrite Hrun in Hs |- *. cbn [fst snd] in Hs |- *.
    destruct r as [e |].
    { pose proof (@read_sprites_raises _ _ w h pal _ _ e f' _ Hw Hh Hc E).
      subst e. discriminate Hs. }
    cbn [search_except] in Hs. inversion Hs; subst new.
    specialize (Ln eq_refl). rewrite length_map, length_seq in Ln.
    rewrite firstn_all2 in St by (rewrite length_map, length_seq; lia).
    pose proof (read_sprites_done _ _ _ _ _ _ E) as Ld.
    rewrite R, length_app, length_map, length_seq in Ld.
    cbn [reads length] in Ld.
    exists pal, evs. split; [exact Ep |].
    split; [rewrite R; reflexivity |].
    split; [lia |].
    split.
    { intros i ev H. destruct (Ev i ev H) as (S1 & S2 & S3).
      cbn [pos contents] in S2, S3.
      repeat (split; [assumption |]).
      intros Hfull. rewrite S2, (full_reads_sum Hfull), length_firstn.
      assert (i < length evs) by (apply nth_error_Some; congruence).
      rewrite Nat.min_l by lia. reflexivity. }
    split; [exact Ln |].
    intros i s Hi.
    destruct (Forall2_nth_error_r i St Hi) as (os & Hos & St').
    rewrite nth_error_map_seq in Hos.
    destruct (i <? count); [| discriminate Hos]. inversion Hos; subst os.
    destruct St' as (_ & So & Ss & Sl & Sp). cbn [fst snd] in Sl.
    repeat split; assumption.
  - intros Hpal Hrec.
    destruct (Palette_init_full (firstn 32 (skipn paloffset bytes))
                paloffset) as (pal & Ep & Hp16);
      [rewrite length_firstn, length_skipn; lia |].
    destruct (@read_sprites_full w h pal Hw Hh
                (map (fun k => offset + k * (w * h * 32)) (seq 0 count))
                (mkFile bytes offset
                   [mkRead paloffset 32
                      (Nat.min 32 (length bytes - paloffset))]) [] Hp16)
      as (new & E & St & Im).
    { cbn [pos contents]. rewrite length_map, length_seq. exact Hrec. }
    exists pal, new. split; [reflexivity |]. split; [exact Ep |].
    unfold ROM_search, ROM_search_reads.
    rewrite (@search_run_sprites fs self bytes offset w h paloffset count
               Hfile pal Hw Hh Ep), E.
    cbn [fst snd search_except reads pos contents app].
    rewrite length_map, length_seq.
    split; [reflexivity |].
    split.
    { unfold Spec.expected_reads. f_equal. f_equal. lia. }
    split.
    { apply Forall2_length in St.
      rewrite length_map, length_seq in St. symmetry. exact St. }
    intros i s Hs.
    destruct (Forall2_nth_error_r i St Hs) as (os & Hos & St').
    rewrite nth_error_map_seq in Hos.
    destruct (i <? count); [| discriminate Hos]. inversion Hos; subst os.
    destruct St' as (_ & So & Ss & Sl & Sp). cbn [fst snd] in Sl.
    repeat (split; [assumption |]).
    exact (Im i s Hs).
Qed.

(** C4, a run of the theorem: three sprites of 2 by 2 tiles in a file that
    holds them. *)
Lemma search_reads_in_order_witness :
  exists sprites,
    ROM_search (fun _ => Ok (repeat x11 (32 + 3 * 128))) (mkROM EmptyString)
      32 (2, 2) 0 3 = Ok sprites
    /\ map Sprite.offset sprites = [32; 160; 288]
    /\ ROM_search_reads (fun _ => Ok (repeat x11 (32 + 3 * 128)))
         (mkROM EmptyString) 32 (2, 2) 0 3
       = [mkRead 0 32 32; mkRead 32 128 128; mkRead 160 128 128;
          mkRead 288 128 128].
Proof.
  destruct (@search_reads_in_order
              (fun _ => Ok (repeat x11 (32 + 3 * 128))) (mkROM EmptyString)
              (repeat x11 (32 + 3 * 128)) 32 2 2 0 3)
    as (_ & _ & H); [reflexivity | lia | lia |].
  destruct H as (pal & sprites & _ & _ & E & R & L & N);
    [cbn; lia | cbn; lia |].
  exists sprites. split; [exact E |]. split; [| exact R].
  destruct sprites as [| s0 [| s1 [| s2 [| s3 tl]]]];
    cbn in L; try discriminate L.
  destruct (N 0 s0 eq_refl) as (O0 & _).
  destruct (N 1 s1 eq_refl) as (O1 & _).
  destruct (N 2 s2 eq_refl) as (O2 & _).
  cbn [map]. rewrite O0, O1, O2. reflexivity.
Defined.

(** C4, the counterexample: a file of 64 bytes with the palette at 0, and
    three sprites of one tile asked for from offset 32.  The call returns
    three sprites, recorded at 32, 64 and 96; but the reads after the
    palette start at 32, 64 and 64, since the file is read on from where
    it stands, and the last two return no byte: the third read is not at
    [32 + 2*32 = 96] and no read returns the 32 bytes of a third record. *)
Lemma search_reads_in_order_counterexample :
  (exists sprites,
     ROM_search (fun _ => Ok (repeat x00 64)) (mkROM EmptyString)
       32 (1, 1) 0 3 = Ok sprites
     /\ map Sprite.offset sprites = [32; 64; 96])
  /\ ROM_search_reads (fun _ => Ok (repeat x00 64)) (mkROM EmptyString)
       32 (1, 1) 0 3
     = [mkRead 0 32 32; mkRead 32 32 32; mkRead 64 32 0; mkRead 64 32 0]
  /\ ROM_search_reads (fun _ => Ok (repeat x00 64)) (mkROM EmptyString)
       32 (1, 1) 0 3
     <> Spec.expected_reads 32 (1 * 1 * 32) 0 3.
Proof.
  split; [| split].
  - eexists. split; [vm_compute; reflexivity | reflexivity].
  - reflexivity.
  - intros H. vm_compute in H. discriminate H.
Qed.

(** C5 (as the code has it).  For a tile-grid size [(w, h)] with both
    components at least 1, the dummy branch yields an image of the final
    dimensions of the decoded case, which are [16*w] by [16*h] pixels
    (the decoded [8*w] by [8*h] buffer is doubled before it is kept),
    with every pixel equal to (170,170,170); size (2,3) yields a 32x48
    image. *)
Theorem placeholder_image (w h : nat) (p : Palette) :
  0 < w -> 0 < h ->
  exists P,
    Image_init [] (w, h) p = Ok (mkImage (Some P))
    /\ width P = 16 * w /\ height P = 16 * h
    /\ pixels P = repeat (170, 170, 170)%Z (width P * height P)
    /\ (forall x y, x < 16 * w -> y < 16 * h ->
          get_pixel P x y = Some (170, 170, 170)%Z)
    /\ (forall data p', palette16 p' -> length data = w * h * 32 ->
          exists Q, Image_init data (w, h) p' = Ok (mkImage (Some Q))
                    /\ width Q = width P /\ height Q = height P)
    /\ (w = 2 -> h = 3 -> width P = 32 /\ height P = 48).
Proof.
  intros Hw Hh.
  exists (mkPixbuf (w * 8 * 2) (h * 8 * 2)
            (repeat sentinel ((w * 8 * 2) * (h * 8 * 2)))).
  split; [apply Image_init_dummy; assumption |].
  cbn [width height pixels].
  split; [lia |]. split; [lia |]. split; [reflexivity |].
  split; [intros x y Hx Hy; apply get_pixel_repeat; lia |].
  split; [| intros -> ->; split; reflexivity].
  intros data p' Hp L.
  destruct (@Image_init_full w h p' Hw Hh data Hp L) as (P & Q & _ & HQ & E).
  exists Q. split; [exact E |].
  unfold scale_simple in HQ.
  destruct ((0 <? 8 * w * 2) && (0 <? 8 * h * 2)); [| discriminate HQ].
  inversion HQ. cbn [width height]. lia.
Qed.

(** C5, a run of the theorem: size (2,3). *)
Lemma placeholder_image_witness :
  exists P,
    Image_init [] (2, 3) (mkPalette 0 []) = Ok (mkImage (Some P))
    /\ width P = 32 /\ height P = 48
    /\ get_pixel P 31 47 = Some (170, 170, 170)%Z.
Proof.
  destruct (@placeholder_image 2 3 (mkPalette 0 []))
    as (P & E & _ & _ & _ & G & _ & D); [lia | lia |].
  exists P. split; [exact E |].
  destruct (D eq_refl eq_refl) as (Dw & Dh).
  split; [exact Dw |]. split; [exact Dh |].
  apply G; lia.
Defined.

(** C5, the counterexample: for size (2,3) the dummy image is 32 pixels
    wide and 48 high, not 16 by 24. *)
Lemma placeholder_image_counterexample :
  exists P,
    Image_init [] (2, 3) (mkPalette 0 []) = Ok (mkImage (Some P))
    /\ width P = 32 /\ height P = 48
    /\ ~ (width P = 8 * 2 /\ height P = 8 * 3).
Proof.
  eexists. split; [reflexivity |]. cbn [width height].
  split; [reflexivity |]. split; [reflexivity |].
  intros [H _]. discriminate H.
Qed.

(** C6 (as the code has it).  For a size with both components at least 1,
    a non-empty buffer shorter than [w*h*32] bytes makes the image
    constructor raise IndexError: no partial image is built.  Inside a
    search the exception is not contained: as soon as one sprite read
    comes back short but not empty, the whole call raises IndexError and
    returns no sprite, whatever was decoded before. *)
Theorem truncated_tile_data (w h : nat) :
  0 < w -> 0 < h ->
  (forall data p,
     0 < length data -> length data < w * h * 32 ->
     Image_init data (w, h) p = Raise IndexError)
  /\ (forall fs self bytes offset paloffset count i ev,
        fs (ROM.filename self) = Ok bytes ->
        nth_error (ROM_search_reads fs self offset (w, h) paloffset count)
          (S i) = Some ev ->
        0 < read_got ev < read_size ev ->
        ROM_search fs self offset (w, h) paloffset count = Raise IndexError)
  /\ (forall fs self bytes offset paloffset count k,
        fs (ROM.filename self) = Ok bytes ->
        paloffset + 32 <= length bytes ->
        k < count ->
        offset + k * (w * h * 32) < length bytes ->
        length bytes < offset + (k + 1) * (w * h * 32) ->
        ROM_search fs self offset (w, h) paloffset count = Raise IndexError).
Proof.
  intros Hw Hh. split; [| split].
  - intros data p Hd L. exact (@Image_init_short w h p Hw Hh data Hd L).
  - intros fs self bytes offset paloffset count i ev Hfile Hev Hshort.
    destruct (Palette_init (firstn 32 (skipn paloffset bytes)) paloffset)
      as [pal | e] eqn:Ep.
    + destruct (@search_run_loop fs self bytes offset w h paloffset count
                  Hfile Hw Hh pal Ep)
        as (r & f' & sp & evs & E & R & Es & Er).
      rewrite Er in Hev. cbn [nth_error] in Hev.
      rewrite Es, (@read_sprites_short_read w h pal Hw Hh _ _ _ _ _ _ _ i ev
                     E R Hev Hshort).
      reflexivity.
    + rewrite (@search_run_no_palette fs self bytes offset w h paloffset
                 count Hfile e Ep) in Hev.
      destruct i; discriminate Hev.
  - intros fs self bytes offset paloffset count k Hfile Hpal Hk Hlo Hhi.
    destruct (Palette_init_full (firstn 32 (skipn paloffset bytes))
                paloffset)
      as (pal & Ep & Hp16);
      [rewrite length_firstn, length_skipn; lia |].
    destruct (@read_sprites_short w h pal Hw Hh
                (map (fun j => offset + j * (w * h * 32)) (seq 0 count))
                (mkFile bytes offset
                   [mkRead paloffset 32
                      (Nat.min 32 (length bytes - paloffset))]) [] k Hp16)
      as (f' & sp & E);
      [rewrite length_map, length_seq; exact Hk | exact Hlo | exact Hhi |].
    unfold ROM_search.
    rewrite (@search_run_sprites fs self bytes offset w h paloffset count
               Hfile pal Hw Hh Ep), E.
    reflexivity.
Qed.

Lemma truncated_tile_data_witness :
  Image_init (repeat x00 8) (1, 1) (mkPalette 0 []) = Raise IndexError
  /\ ROM_search (fun _ => Ok (repeat x00 72)) (mkROM EmptyString)
       32 (1, 1) 0 2 = Raise IndexError.
Proof.
  destruct (@truncated_tile_data 1 1) as (Hi & _ & Hs); [lia | lia |].
  split.
  - apply Hi; cbn; lia.
  - apply (Hs (fun _ => Ok (repeat x00 72)) (mkROM EmptyString)
             (repeat x00 72) 32 0 2 1); [reflexivity | | | |]; cbn; lia.
Defined.

(** C6, the counterexample: a 32-byte palette, one whole tile and 8 more
    bytes.  The first of the two sprites decodes, the second read is cut
    short, and the search does not return the first sprite: the call as a
    whole raises IndexError. *)
Lemma truncated_tile_data_counterexample :
  (exists pal s,
     Palette_init (firstn 32 (repeat x00 72)) 0 = Ok pal
     /\ Sprite_init (firstn 32 (skipn 32 (repeat x00 72))) 32 (1, 1) pal
        = Ok s)
  /\ ROM_search_reads (fun _ => Ok (repeat x00 72)) (mkROM EmptyString)
       32 (1, 1) 0 2
     = [mkRead 0 32 32; mkRead 32 32 32; mkRead 64 32 8]
  /\ ROM_search (fun _ => Ok (repeat x00 72)) (mkROM EmptyString)
       32 (1, 1) 0 2
     = Raise IndexError
  /\ (forall sprites,
        ROM_search (fun _ => Ok (repeat x00 72)) (mkROM EmptyString)
          32 (1, 1) 0 2
        <> Ok sprites).
Proof.
  split; [| split; [| split]].
  - do 2 eexists. split; vm_compute; reflexivity.
  - vm_compute. reflexivity.
  - vm_compute. reflexivity.
  - intros sprites H. vm_compute in H. discriminate H.
Qed.

(** C7 (as the code has it).  A palette input of even length [2*k] is
    decoded to exactly [k] colours without any error, so a non-empty
    record shorter than 32 bytes is silently cut to fewer than 16 colours;
    only an input of odd length fails, with struct.error, and that error
    leaves [ROM.search] as a whole; the empty input gives 0 colours. *)
Theorem palette_decode_short (data : list byte) (offset : nat) :
  (forall k, length data = 2 * k ->
     exists p, Palette_init data offset = Ok p
               /\ length (Palette.colors p) = k)
  /\ (forall k, length data = 2 * k + 1 ->
        Palette_init data offset = Raise StructError)
  /\ (forall fs self bytes os size count,
        fs (ROM.filename self) = Ok bytes ->
        data = firstn 32 (skipn offset bytes) ->
        Nat.Odd (length data) ->
        ROM_search fs self os size offset count = Raise StructError)
  /\ Palette_init [] offset = Ok (mkPalette offset []).
Proof.
  split; [| split; [| split]].
  - intros k L. eexists. split; [apply Palette_init_even; exact L |].
    cbn [Palette.colors]. rewrite length_map, length_seq. reflexivity.
  - intros k L. exact (Palette_init_odd data offset k L).
  - intros fs self bytes os [w h] count Hf -> [k Hk].
    unfold ROM_search.
    rewrite (@search_run_palette_raises fs self bytes os w h offset count
               Hf StructError); [reflexivity |].
    exact (Palette_init_odd _ offset k Hk).
  - reflexivity.
Qed.

(** C7, the counterexample: the two bytes FF 7F are a non-empty palette
    input shorter than 32 bytes, and they decode to one colour without any
    error. *)
Lemma palette_decode_short_counterexample :
  0 < length [xff; x7f] < 32
  /\ Palette_init [xff; x7f] 0 = Ok (mkPalette 0 [[248; 248; 248]%Z])
  /\ (forall e, Palette_init [xff; x7f] 0 <> Raise e).
Proof.
  split; [cbn; lia |]. split; [reflexivity |].
  intros e H. discriminate H.
Qed.

Lemma palette_decode_short_witness :
  (exists p, Palette_init [x1f; x00; xe0; x03] 5 = Ok p
             /\ length (Palette.colors p) = 2)
  /\ Palette_init [x1f; x00; xe0] 5 = Raise StructError
  /\ ROM_search (fun _ => Ok [x1f; x00; xe0]) (mkROM EmptyString)
       0 (1, 1) 0 1 = Raise StructError.
Proof.
  destruct (palette_decode_short [x1f; x00; xe0; x03] 5) as (He & _).
  destruct (palette_decode_short [x1f; x00; xe0] 5) as (_ & Ho & _).
  destruct (palette_decode_short [x1f; x00; xe0] 0) as (_ & _ & Hs & _).
  split; [apply (He 2); reflexivity |].
  split; [apply (Ho 1); reflexivity |].
  apply (Hs (fun _ => Ok [x1f; x00; xe0]) (mkROM EmptyString)
           [x1f; x00; xe0]); [reflexivity | reflexivity |].
  exists 1. reflexivity.
Defined.

(** C8 (as the code has it).  When [open] raises FileNotFoundError,
    [search] returns the empty list, issues no read and raises nothing;
    any other exception of [open] leaves [search]. *)
Theorem search_missing_file (fs : filesystem) (self : ROM)
    (offset : nat) (size : nat * nat) (paloffset count : nat) (e : exn) :
  fs (ROM.filename self) = Raise e ->
  ROM_search fs self offset size paloffset count
  = match e with
    | FileNotFoundError => Ok []
    | _ => Raise e
    end
  /\ ROM_search_reads fs self offset size paloffset count = [].
Proof.
  intros Hfile. unfold ROM_search, ROM_search_reads, ROM_search_run.
  rewrite Hfile. split; [| reflexivity].
  destruct e; reflexivity.
Qed.

Lemma search_missing_file_witness :
  ROM_search (fun _ => Raise FileNotFoundError) (mkROM EmptyString)
    0 (1, 1) 0 1 = Ok []
  /\ ROM_search_reads (fun _ => Raise FileNotFoundError) (mkROM EmptyString)
       0 (1, 1) 0 1 = [].
Proof.
  apply (@search_missing_file (fun _ => Raise FileNotFoundError)
           (mkROM EmptyString) 0 (1, 1) 0 1 FileNotFoundError).
  reflexivity.
Defined.

(** C8, the counterexample: a source that cannot be opened because access
    is denied; [search] does not return the empty list, PermissionError
    reaches the caller. *)
Lemma search_missing_file_counterexample :
  ROM_search (fun _ => Raise PermissionError) (mkROM EmptyString)
    0 (1, 1) 0 1 = Raise PermissionError
  /\ ROM_search (fun _ => Raise PermissionError) (mkROM EmptyString)
       0 (1, 1) 0 1 <> Ok [].
Proof. split; [reflexivity | intros H; discriminate H]. Qed.

(** C9 (as the code has it).  On a source that opens, and for a size with
    both components at least 1: if a sprite read returns zero bytes, its
    slot still yields a sprite, whose image is the dummy image, and the
    search returns [count] sprites; and whenever the palette read returns
    all of its 32 bytes and every read returns either all the bytes asked
    for or none, the search returns exactly [count] sprites, those of the
    empty reads with the dummy image. *)
Theorem search_empty_reads (fs : filesystem) (self : ROM)
    (bytes : list byte) (offset w h paloffset count : nat) :
  fs (ROM.filename self) = Ok bytes ->
  0 < w -> 0 < h ->
  (forall i ev,
     nth_error (ROM_search_reads fs self offset (w, h) paloffset count)
       (S i) = Some ev ->
     read_got ev = 0 ->
     exists sprites s,
       ROM_search fs self offset (w, h) paloffset count = Ok sprites
       /\ length sprites = count
       /\ nth_error sprites i = Some s
       /\ Sprite.offset s = offset + i * (w * h * 32)
       /\ Sprite.image s = dummy_image (w, h))
  /\ (paloffset + 32 <= length bytes ->
      Forall all_or_nothing
        (ROM_search_reads fs self offset (w, h) paloffset count) ->
      exists sprites,
        ROM_search fs self offset (w, h) paloffset count = Ok sprites
        /\ length sprites = count
        /\ map Sprite.offset sprites
           = map (fun i => offset + i * (w * h * 32)) (seq 0 count)
        /\ Forall2 (fun ev s =>
                      read_got ev = 0 ->
                      Sprite.image s = dummy_image (w, h))
             (tl (ROM_search_reads fs self offset (w, h) paloffset count))
             sprites).
Proof.
  intros Hfile Hw Hh. split.
  - intros i ev Hev Z.
    destruct (Palette_init (firstn 32 (skipn paloffset bytes)) paloffset)
      as [pal | e] eqn:Ep.
    + destruct (@search_run_loop fs self bytes offset w h paloffset count
                  Hfile Hw Hh pal Ep)
        as (r & f' & sp & evs & E & R & Es & Er).
      rewrite Er in Hev. cbn [nth_error] in Hev.
      assert (Hn : 0 < w * h * 32) by nia.
      destruct (@read_sprites_empty_read w h pal Hw Hh _ _ _ _ _ _ _ _ i ev
                  Hn E R Hev Z)
        as (-> & new & s & -> & St & Ns & Is).
      cbn [app] in *. exists new, s. rewrite Es.
      split; [reflexivity |].
      split.
      { apply Forall2_length in St.
        rewrite length_map, length_seq in St. symmetry. exact St. }
      split; [exact Ns |]. split; [| exact Is].
      destruct (Forall2_nth_error_r i St Ns) as (os & Hos & St').
      rewrite nth_error_map_seq in Hos.
      destruct (i <? count); [| discriminate Hos]. inversion Hos; subst os.
      exact (proj1 (proj2 St')).
    + rewrite (@search_run_no_palette fs self bytes offset w h paloffset
                 count Hfile e Ep) in Hev.
      destruct i; discriminate Hev.
  - intros Hpal Hall.
    destruct (Palette_init_full (firstn 32 (skipn paloffset bytes))
                paloffset)
      as (pal & Ep & Hp16);
      [rewrite length_firstn, length_skipn; lia |].
    destruct (@search_run_loop fs self bytes offset w h paloffset count
                Hfile Hw Hh pal Ep)
      as (r & f' & sp & evs & E & R & Es & Er).
    rewrite Er in Hall |- *. cbn [tl].
    inversion Hall as [| ev0 tl0 _ Hevs]; subst.
    destruct (@read_sprites_all_or_nothing w h pal Hw Hh _ _ _ _ _ _ evs
                Hp16 E R Hevs)
      as (-> & new & -> & St & Du).
    cbn [app] in *. exists new. rewrite Es.
    split; [reflexivity |].
    split.
    { apply Forall2_length in St.
      rewrite length_map, length_seq in St. symmetry. exact St. }
    split; [| exact Du].
    clear - St. revert St.
    generalize (map (fun k => offset + k * (w * h * 32)) (seq 0 count)).
    intros l St. induction St as [| os s l new St0 St IH]; [reflexivity |].
    cbn [map]. rewrite IH. f_equal. exact (proj1 (proj2 St0)).
Qed.

Lemma search_empty_reads_witness :
  exists sprites,
    ROM_search (fun _ => Ok (repeat x00 64)) (mkROM EmptyString)
      32 (1, 1) 0 3 = Ok sprites
    /\ length sprites = 3
    /\ map Sprite.offset sprites = [32; 64; 96]
    /\ (exists s, nth_error sprites 1 = Some s
                  /\ Sprite.image s = dummy_image (1, 1)).
Proof.
  destruct (@search_empty_reads (fun _ => Ok (repeat x00 64))
              (mkROM EmptyString) (repeat x00 64) 32 1 1 0 3)
    as (H1 & H2); [reflexivity | lia | lia |].
  assert (Hp : 0 + 32 <= length (repeat x00 64)) by (cbn; lia).
  assert (Ha : Forall all_or_nothing
                 (ROM_search_reads (fun _ => Ok (repeat x00 64))
                    (mkROM EmptyString) 32 (1, 1) 0 3)).
  { vm_compute.
    repeat (apply Forall_cons; [cbn; auto |]). apply Forall_nil. }
  destruct (H2 Hp Ha) as (sprites & E & L & O & _).
  destruct (H1 1 (mkRead 64 32 0)) as (sprites' & s & E' & _ & N & _ & I);
    [reflexivity | reflexivity |].
  rewrite E in E'. inversion E'; subst sprites'.
  exists sprites. split; [exact E |]. split; [exact L |].
  split; [exact O |]. exists s. split; [exact N | exact I].
Defined.

(** C9, the counterexample: the palette offset is at the end of a 32-byte
    source, so the palette read returns nothing and the one sprite read
    returns all of its 32 bytes; every read returned all or nothing, and
    yet the search returns no sprite: it raises IndexError. *)
Lemma search_empty_reads_counterexample :
  ROM_search_reads (fun _ => Ok (repeat x00 32)) (mkROM EmptyString)
    0 (1, 1) 32 1
  = [mkRead 32 32 0; mkRead 0 32 32]
  /\ Forall all_or_nothing
       (ROM_search_reads (fun _ => Ok (repeat x00 32)) (mkROM EmptyString)
          0 (1, 1) 32 1)
  /\ ROM_search (fun _ => Ok (repeat x00 32)) (mkROM EmptyString)
       0 (1, 1) 32 1
     = Raise IndexError.
Proof.
  split; [reflexivity |]. split; [| reflexivity].
  vm_compute. repeat (apply Forall_cons; [cbn; auto |]). apply Forall_nil.
Qed.

(** C10 (as the code has it).  On a source that opens, whose palette read returns an even
    number of bytes (all 32 in particular), and for every tile-grid size
    with both components at least 1, [search] with [count = 0] returns
    the empty list: the read of 32 bytes at [paloffset] is the only read
    issued and no sprite is built. *)
Theorem search_zero_count (fs : filesystem) (self : ROM)
    (bytes : list byte) (offset w h paloffset : nat) :
  fs (ROM.filename self) = Ok bytes ->
  0 < w -> 0 < h ->
  Nat.Even (Nat.min 32 (length bytes - paloffset)) ->
  ROM_search fs self offset (w, h) paloffset 0 = Ok []
  /\ ROM_search_reads fs self offset (w, h) paloffset 0
     = [mkRead paloffset 32 (Nat.min 32 (length bytes - paloffset))].
Proof.
  intros Hfile Hw Hh [k Hk].
  assert (Ep : Palette_init (firstn 32 (skipn paloffset bytes)) paloffset
               = Ok (mkPalette paloffset
                       (map (fun i =>
                               Spec.color_of
                                 (Spec.le16
                                    (firstn 32 (skipn paloffset bytes)) i))
                          (seq 0 k))))
    by (apply Palette_init_even;
        rewrite length_firstn, length_skipn; exact Hk).
  unfold ROM_search, ROM_search_reads.
  rewrite (@search_run_sprites fs self bytes offset w h paloffset 0
             Hfile _ Hw Hh Ep).
  split; reflexivity.
Qed.

(** C10, a run of the theorem: a file of 40 bytes, the palette at 4. *)
Lemma search_zero_count_witness :
  ROM_search (fun _ => Ok (repeat xff 40)) (mkROM EmptyString) 8 (2, 3) 4 0
  = Ok []
  /\ ROM_search_reads (fun _ => Ok (repeat xff 40)) (mkROM EmptyString)
       8 (2, 3) 4 0
     = [mkRead 4 32 32].
Proof.
  apply (@search_zero_count (fun _ => Ok (repeat xff 40))
           (mkROM EmptyString) (repeat xff 40) 8 2 3 4);
    [reflexivity | lia | lia | exists 16; reflexivity].
Defined.

(** C10, the counterexample: a file of 33 bytes and the palette asked for
    at 32.  The palette read returns one byte, and [search] with
    [count = 0] raises struct.error instead of returning the empty
    list. *)
Lemma search_zero_count_counterexample :
  ROM_search (fun _ => Ok (repeat x00 33)) (mkROM EmptyString)
    0 (1, 1) 32 0 = Raise StructError
  /\ ROM_search (fun _ => Ok (repeat x00 33)) (mkROM EmptyString)
       0 (1, 1) 32 0 <> Ok []
  /\ ROM_search_reads (fun _ => Ok (repeat x00 33)) (mkROM EmptyString)
       0 (1, 1) 32 0 = [mkRead 32 32 1].
Proof.
  split; [reflexivity |]. split; [| reflexivity].
  intros H. vm_compute in H. discriminate H.
Qed.

(** * Further properties of the code *)

(** ** [cut] *)

(** X1.  For a positive chunk size, [cut] loses nothing and adds nothing:
    the chunks laid end to end are the iterable. *)
Theorem cut_concat (A : Type) (l : list A) (n : nat) :
  0 < n ->
  exists chunks, cut l n = Ok chunks /\ concat chunks = l.
Proof.
  intros Hn. eexists. split; [apply cut_chunks; exact Hn |].
  rewrite concat_chunks. apply firstn_all2.
  pose proof (range_len_spec (length l) (range_len 0 (length l) n) Hn) as H.
  destruct (Nat.lt_ge_cases (range_len 0 (length l) n * n) (length l))
    as [Hlt | Hge]; [| exact Hge].
  apply H in Hlt. lia.
Qed.

Lemma cut_concat_witness :
  exists chunks, cut [1; 2; 3; 4; 5; 6; 7] 3 = Ok chunks
                 /\ concat chunks = [1; 2; 3; 4; 5; 6; 7].
Proof. apply (@cut_concat nat [1; 2; 3; 4; 5; 6; 7] 3). lia. Defined.

(** X2.  A chunk size of zero raises ValueError, even on an empty
    iterable.  For a positive chunk size [n], [cut] returns
    [ceil(len / n)] chunks, none for the empty iterable; chunk [k] is the
    slice at [k*n]; no chunk is empty or longer than [n], and every chunk
    but the last is exactly [n] long. *)
Theorem cut_chunk_sizes (A : Type) (l : list A) :
  cut l 0 = Raise ValueError
  /\ forall n, 0 < n ->
       exists chunks,
         cut l n = Ok chunks
         /\ length chunks = (length l + n - 1) / n
         /\ (l = [] -> chunks = [])
         /\ (forall k c, nth_error chunks k = Some c ->
               c = firstn n (skipn (k * n) l)
               /\ 0 < length c <= n
               /\ (S k < length chunks -> length c = n)).
Proof.
  split; [reflexivity |]. intros n Hn.
  eexists. split; [apply cut_chunks; exact Hn |].
  rewrite length_map, length_seq.
  split; [unfold range_len; rewrite Nat.sub_0_r; reflexivity |].
  split.
  { intros ->. cbn [length]. unfold range_len. cbn [Nat.sub Nat.add].
    rewrite Nat.div_small by lia. reflexivity. }
  intros k c Hc. rewrite nth_error_chunks in Hc by exact Hn.
  destruct (Nat.ltb_spec (k * n) (length l)) as [Hk | Hk];
    [| discriminate Hc].
  inversion Hc; subst c. split; [reflexivity |].
  rewrite length_chunk. split; [lia |].
  intros Hlast. apply (range_len_spec (length l) (S k) Hn) in Hlast. lia.
Qed.

Lemma cut_chunk_sizes_witness :
  exists chunks,
    cut [x00; x01; x02; x03; x04] 2 = Ok chunks
    /\ length chunks = 3
    /\ nth_error chunks 2 = Some [x04].
Proof.
  destruct (@cut_chunk_sizes byte [x00; x01; x02; x03; x04]) as (_ & H).
  destruct (H 2) as (chunks & E & L & _ & _); [lia |].
  exists chunks. split; [exact E |]. split; [exact L |].
  cbv in E. inversion E. reflexivity.
Defined.

(** ** [Palette] *)

(** X3.  The decoded colour keeps exactly the low 15 bits of the packed
    value: from colour [i] of a 32-byte record, R/8 + 32*(G/8) +
    1024*(B/8) is the little-endian value of bytes [2i], [2i+1] without
    its bit 15, so two records that differ only in that bit decode to the
    same colours and nothing else is lost. *)
Theorem palette_keeps_15_bits (data : list byte) (offset i : nat) :
  length data = 32 -> i < 16 ->
  exists p r g b,
    Palette_init data offset = Ok p
    /\ nth_error (Palette.colors p) i = Some [r; g; b]
    /\ (r / 8 + 32 * (g / 8) + 1024 * (b / 8)
        = Spec.le16 data i mod 32768)%Z.
Proof.
  intros L Hi.
  assert (M : forall a : Z, Z.land a 31 = (a mod 32)%Z)
    by (intros a; apply (Z.land_ones a 5); lia).
  exists (mkPalette offset
            (map (fun i => Spec.color_of (Spec.le16 data i)) (seq 0 16))).
  do 3 eexists. split; [apply Palette_init_even; lia |].
  cbn [Palette.colors]. split.
  { rewrite nth_error_map_seq.
    destruct (Nat.ltb_spec i 16); [reflexivity | lia]. }
  set (c := Spec.le16 data i).
  rewrite !Z.div_mul by lia.
  rewrite !Z.shiftr_land.
  change (Z.shiftr 992 5) with 31%Z. change (Z.shiftr 31744 10) with 31%Z.
  rewrite !M.
  rewrite (Z.shiftr_div_pow2 c 5), (Z.shiftr_div_pow2 c 10) by lia.
  change (2 ^ 5)%Z with 32%Z. change (2 ^ 10)%Z with 1024%Z.
  pose proof (Z.div_mod c 32 ltac:(lia)) as D1.
  pose proof (Z.mod_pos_bound c 32 ltac:(lia)) as B1.
  pose proof (Z.div_mod (c / 32) 32 ltac:(lia)) as D2.
  pose proof (Z.mod_pos_bound (c / 32) 32 ltac:(lia)) as B2.
  pose proof (Z.div_mod (c / 1024) 32 ltac:(lia)) as D3.
  pose proof (Z.mod_pos_bound (c / 1024) 32 ltac:(lia)) as B3.
  assert (Q : (c / 32 / 32 = c / 1024)%Z)
    by (rewrite Z.div_div by lia; reflexivity).
  rewrite Q in D2.
  apply (Z.mod_unique c 32768 (c / 1024 / 32)); lia.
Qed.

Lemma palette_keeps_15_bits_witness :
  exists p r g b,
    Palette_init (repeat xff 32) 0 = Ok p
    /\ nth_error (Palette.colors p) 3 = Some [r; g; b]
    /\ (r / 8 + 32 * (g / 8) + 1024 * (b / 8) = 32767)%Z.
Proof.
  destruct (@palette_keeps_15_bits (repeat xff 32) 0 3)
    as (p & r & g & b & E & N & H); [reflexivity | lia |].
  exists p, r, g, b. split; [exact E |]. split; [exact N |].
  rewrite H. reflexivity.
Defined.

(** ** [Image] *)

(** X4.  The decoder reads the first [w*h*32] bytes of its data and
    nothing else: bytes after them change neither the image nor the
    outcome. *)
Theorem Image_ignores_trailing_bytes (d extra : list byte) (w h : nat)
    (p : Palette) :
  0 < w -> 0 < h -> length d = w * h * 32 ->
  Image_init (d ++ extra) (w, h) p = Image_init d (w, h) p.
Proof.
  intros Hw Hh L.
  rewrite !Image_init_data by (rewrite ?length_app; nia).
  unfold Image_result.
  rewrite Image_bytestring_enough by (rewrite ?length_app; lia).
  rewrite Image_bytestring_full by assumption.
  rewrite scan_app by exact L. reflexivity.
Qed.

Lemma Image_ignores_trailing_bytes_witness :
  Image_init (repeat x12 32 ++ [xff; xff; xff]) (1, 1)
    (mkPalette 0 (repeat [8; 16; 24]%Z 16))
  = Image_init (repeat x12 32) (1, 1)
      (mkPalette 0 (repeat [8; 16; 24]%Z 16)).
Proof.
  apply (@Image_ignores_trailing_bytes (repeat x12 32) [xff; xff; xff] 1 1);
    [lia | lia | reflexivity].
Defined.

(** X5.  A palette shorter than the pixel indices need: for data of
    exactly [w*h*32] bytes, the constructor raises IndexError as soon as
    one pixel index is not below the number of colours (always, when the
    palette has no colour), and it returns an image of [16*w] by [16*h]
    pixels when every pixel index is below the number of colours. *)
Theorem Image_palette_too_short (data : list byte) (w h : nat)
    (p : Palette) :
  0 < w -> 0 < h -> length data = w * h * 32 ->
  ((exists x y, x < 8 * w /\ y < 8 * h
                /\ length (Palette.colors p)
                   <= Z.to_nat (Spec.index_at data w x y)) ->
   Image_init data (w, h) p = Raise IndexError)
  /\ (Palette.colors p = [] -> Image_init data (w, h) p = Raise IndexError)
  /\ (Forall color_ok (Palette.colors p) ->
      (forall x y, x < 8 * w -> y < 8 * h ->
         Z.to_nat (Spec.index_at data w x y) < length (Palette.colors p)) ->
      exists Q, Image_init data (w, h) p = Ok (mkImage (Some Q))
                /\ width Q = 16 * w /\ height Q = 16 * h).
Proof.
  intros Hw Hh L.
  assert (Bad : (exists x y, x < 8 * w /\ y < 8 * h
                   /\ length (Palette.colors p)
                      <= Z.to_nat (Spec.index_at data w x y)) ->
                Image_init data (w, h) p = Raise IndexError).
  { intros (x & y & Hx & Hy & Hi).
    exact (@Image_init_bad_index data w h p x y Hw Hh L Hx Hy Hi). }
  split; [exact Bad |]. split.
  - intros E. apply Bad. exists 0, 0. rewrite E. cbn [length].
    repeat split; lia.
  - intros Hc Hall.
    destruct (@Image_init_outcome data w h p Hw Hh Hc) as [Hok | Hbad];
      [exact Hok | exfalso].
    rewrite Image_init_data in Hbad by nia. unfold Image_result in Hbad.
    rewrite Image_bytestring_full in Hbad by assumption.
    cbn [bind] in Hbad.
    assert (Hr : forall v, In v (Spec.scan data w h) ->
                 Z.to_nat v < length (Palette.colors p)).
    { intros v Hv. destruct (In_nth _ _ 0%Z Hv) as (n & Hn & <-).
      rewrite length_scan in Hn by exact L.
      pose proof (Nat.div_mod_eq n (8 * w)) as Dn.
      pose proof (Nat.mod_upper_bound n (8 * w)) as Mn.
      assert (Qn : n / (8 * w) < 8 * h)
        by (apply Nat.Div0.div_lt_upper_bound; nia).
      replace n with (n / (8 * w) * (8 * w) + n mod (8 * w)) by lia.
      rewrite (@scan_index_at data w h _ _ L) by lia.
      apply Hall; lia. }
    assert (Ha : exists r, apply_palette p (Spec.scan data w h) = Ok r).
    { unfold apply_palette. eexists.
      apply (for_appends _
               (fun i => nth (Z.to_nat i) (Palette.colors p) [])).
      intros i s Hi. specialize (Hr i Hi).
      rewrite (getitem_some _ _ (nth_error_nth' _ [] Hr)). reflexivity. }
    destruct Ha as (r & Ha). rewrite Ha in Hbad. cbn [bind] in Hbad.
    destruct (@apply_palette_samples p _ r Hc Ha) as [Sr _].
    rewrite (bytearray_samples Sr) in Hbad. cbn [bind fst snd] in Hbad.
    unfold new_from_data in Hbad.
    destruct (Nat.ltb_spec 0 (8 * w)); [| lia].
    destruct (Nat.ltb_spec 0 (8 * h)); [| lia].
    cbn [andb on_object bind] in Hbad. discriminate Hbad.
Qed.

Lemma Image_palette_too_short_witness :
  Image_init (repeat x10 32) (1, 1) (mkPalette 0 [[8; 8; 8]%Z])
  = Raise IndexError
  /\ Image_init (repeat x10 32) (1, 1) (mkPalette 0 []) = Raise IndexError
  /\ exists Q,
       Image_init (repeat x10 32) (1, 1)
         (mkPalette 0 [[8; 8; 8]; [16; 16; 16]]%Z)
       = Ok (mkImage (Some Q))
       /\ width Q = 16 /\ height Q = 16.
Proof.
  destruct (@Image_palette_too_short (repeat x10 32) 1 1
              (mkPalette 0 [[8; 8; 8]%Z])) as (H1 & _);
    [lia | lia | reflexivity |].
  destruct (@Image_palette_too_short (repeat x10 32) 1 1
              (mkPalette 0 [])) as (_ & H2 & _);
    [lia | lia | reflexivity |].
  destruct (@Image_palette_too_short (repeat x10 32) 1 1
              (mkPalette 0 [[8; 8; 8]; [16; 16; 16]]%Z)) as (_ & _ & H3);
    [lia | lia | reflexivity |].
  split; [| split].
  - apply H1. exists 1, 0. repeat split; cbn; lia.
  - apply H2. reflexivity.
  - apply H3.
    + repeat constructor; cbv; intuition discriminate.
    + intros x y Hx Hy. cbn [Palette.colors length].
      unfold Spec.index_at.
      assert (Hb : forall n, n < 32 -> nth n (repeat x10 32) x00 = x10).
      { intros n Hn. do 32 (destruct n as [| n]; [reflexivity |]). lia. }
      pose proof (Nat.mod_upper_bound x 8 ltac:(lia)).
      pose proof (Nat.mod_upper_bound y 8 ltac:(lia)).
      assert (x mod 8 / 2 < 4) by (apply Nat.Div0.div_lt_upper_bound; lia).
      rewrite (Nat.div_small x 8), (Nat.div_small y 8) by lia.
      rewrite Hb by (cbn [Nat.mul Nat.add]; lia).
      destruct (Nat.even x); cbv; lia.
Defined.

(** ** [ROM.search] *)

(** X6.  A tile-grid size with a zero component makes the record length
    zero, and [range] refuses a step of zero: on a file that opens and
    whose palette read has an even length, [search] raises ValueError
    after the palette read, for every count, zero included. *)
Theorem search_zero_size (fs : filesystem) (self : ROM)
    (bytes : list byte) (offset w h paloffset count : nat) :
  fs (ROM.filename self) = Ok bytes ->
  Nat.Even (Nat.min 32 (length bytes - paloffset)) ->
  w = 0 \/ h = 0 ->
  ROM_search fs self offset (w, h) paloffset count = Raise ValueError
  /\ ROM_search_reads fs self offset (w, h) paloffset count
     = [mkRead paloffset 32 (Nat.min 32 (length bytes - paloffset))].
Proof.
  intros Hfile Hev Hz.
  destruct (Palette_init_parity (firstn 32 (skipn paloffset bytes))
              paloffset) as [Hpe _].
  destruct Hpe as (pal & Ep & _);
    [rewrite length_firstn, length_skipn; exact Hev |].
  unfold ROM_search, ROM_search_reads.
  rewrite (@search_run_opened fs self bytes offset (w, h) paloffset count
             Hfile), Ep.
  cbn [fst snd]. replace (w * h * 32) with 0 by nia.
  split; reflexivity.
Qed.

Lemma search_zero_size_witness :
  ROM_search (fun _ => Ok (repeat x00 64)) (mkROM EmptyString)
    32 (0, 4) 0 0 = Raise ValueError
  /\ ROM_search_reads (fun _ => Ok (repeat x00 64)) (mkROM EmptyString)
       32 (0, 4) 0 0 = [mkRead 0 32 32].
Proof.
  apply (@search_zero_size (fun _ => Ok (repeat x00 64))
           (mkROM EmptyString) (repeat x00 64) 32 0 4 0 0);
    [reflexivity | exists 16; reflexivity | left; reflexivity].
Defined.

(** X7.  A search never returns a part of the batch.  On a file that
    opens, whatever the size: whenever [search] returns, the palette was
    decoded and the result holds exactly [count] sprites, sprite [i]
    recording the offset [offset + i*w*h*32], the size and the one palette
    of the call; and [search] raises struct.error exactly when the palette
    read has an odd length. *)
Theorem search_never_partial (fs : filesystem) (self : ROM)
    (bytes : list byte) (offset w h paloffset count : nat) :
  fs (ROM.filename self) = Ok bytes ->
  (forall sprites,
     ROM_search fs self offset (w, h) paloffset count = Ok sprites ->
     exists pal,
       Palette_init (firstn 32 (skipn paloffset bytes)) paloffset = Ok pal
       /\ length sprites = count
       /\ Forall2 (stamped (w, h) pal)
            (map (fun i => offset + i * (w * h * 32)) (seq 0 count))
            sprites)
  /\ (ROM_search fs self offset (w, h) paloffset count = Raise StructError
      <-> Nat.Odd (Nat.min 32 (length bytes - paloffset))).
Proof.
  intros Hfile.
  destruct (Palette_init_parity (firstn 32 (skipn paloffset bytes))
              paloffset) as [Hpe Hpo].
  rewrite length_firstn, length_skipn in Hpe, Hpo.
  assert (Hrun := @search_run_opened fs self bytes offset (w, h)
                    paloffset count Hfile).
  cbn [fst snd] in Hrun. unfold ROM_search. rewrite Hrun. clear Hrun.
  destruct (Nat.Even_or_Odd (Nat.min 32 (length bytes - paloffset)))
    as [He | Ho].
  2: { rewrite (Hpo Ho). cbn [fst search_except]. split.
       - intros sprites H. discriminate H.
       - split; [intros _; exact Ho | reflexivity]. }
  destruct (Hpe He) as (pal & Ep & _ & _ & Hc). rewrite Ep.
  destruct (Nat.eq_dec (w * h * 32) 0) as [Z | NZ].
  { rewrite Z. cbn [range fst search_except].
    split; [intros sprites H; discriminate H |].
    split; [intros H; discriminate H |].
    intros Ho. exfalso. exact (Nat.Even_Odd_False _ He Ho). }
  assert (Hw : 0 < w) by nia. assert (Hh : 0 < h) by nia.
  rewrite range_count by lia.
  destruct (read_sprites_trace
              (map (fun k => offset + k * (w * h * 32)) (seq 0 count))
              (w * h * 32) (w, h) pal
              (mkFile bytes offset
                 [mkRead paloffset 32
                    (Nat.min 32 (length bytes - paloffset))]) [])
    as (r & f' & new & evs & E & _ & _ & St & Ln & _).
  rewrite E. cbn [app fst]. cbn [app] in E.
  destruct r as [e |].
  - pose proof (@read_sprites_raises _ _ w h pal _ _ e f' _ Hw Hh Hc E).
    subst e. cbn [search_except].
    split; [intros sprites H; discriminate H |].
    split; [intros H; discriminate H |].
    intros Ho. exfalso. exact (Nat.Even_Odd_False _ He Ho).
  - specialize (Ln eq_refl). rewrite length_map, length_seq in Ln.
    rewrite firstn_all2 in St by (rewrite length_map, length_seq; lia).
    cbn [search_except]. split.
    + intros sprites H. inversion H; subst new.
      exists pal. repeat split; assumption.
    + split; [intros H; discriminate H |].
      intros Ho. exfalso. exact (Nat.Even_Odd_False _ He Ho).
Qed.

Lemma search_never_partial_witness :
  ROM_search (fun _ => Ok (repeat x00 33)) (mkROM EmptyString)
    0 (1, 1) 32 1 = Raise StructError
  /\ exists sprites,
       ROM_search (fun _ => Ok (repeat x00 64)) (mkROM EmptyString)
         32 (1, 1) 0 3 = Ok sprites
       /\ length sprites = 3.
Proof.
  split.
  - destruct (@search_never_partial (fun _ => Ok (repeat x00 33))
                (mkROM EmptyString) (repeat x00 33) 0 1 1 32 1)
      as (_ & H); [reflexivity |].
    apply H. exists 0. reflexivity.
  - destruct (@search_never_partial (fun _ => Ok (repeat x00 64))
                (mkROM EmptyString) (repeat x00 64) 32 1 1 0 3)
      as (H & _); [reflexivity |].
    destruct (ROM_search (fun _ => Ok (repeat x00 64)) (mkROM EmptyString)
                32 (1, 1) 0 3) as [sprites | e] eqn:Hs.
    + exists sprites. split; [reflexivity |].
      destruct (H sprites eq_refl) as (pal & _ & L & _). exact L.
    + vm_compute in Hs. discriminate Hs.
Defined.

(** X8.  The reads of a search on a file that opens, whatever its
    outcome: first the 32 bytes asked for at [paloffset]; then at most
    [count] reads, each asking for [w*h*32] bytes; the first of them
    starts at [offset] and each next one where the bytes returned so far
    end (there is no seek between sprites); every read returns what the
    file has from its start on, at most what was asked for. *)
Theorem search_read_log (fs : filesystem) (self : ROM) (bytes : list byte)
    (offset w h paloffset count : nat) :
  fs (ROM.filename self) = Ok bytes ->
  exists evs,
    ROM_search_reads fs self offset (w, h) paloffset count
    = mkRead paloffset 32 (Nat.min 32 (length bytes - paloffset)) :: evs
    /\ length evs <= count
    /\ (forall i ev, nth_error evs i = Some ev ->
          read_size ev = w * h * 32
          /\ read_at ev = offset + list_sum (map read_got (firstn i evs))
          /\ read_got ev
             = Nat.min (read_size ev) (length bytes - read_at ev)).
Proof.
  intros Hfile. unfold ROM_search_reads.
  rewrite (@search_run_opened fs self bytes offset (w, h) paloffset count
             Hfile).
  cbn [fst snd].
  assert (Nil : forall i (ev : read_event),
            nth_error (@nil read_event) i = Some ev ->
            read_size ev = w * h * 32
            /\ read_at ev = offset + list_sum (map read_got (firstn i []))
            /\ read_got ev
               = Nat.min (read_size ev) (length bytes - read_at ev))
    by (intros [| i] ev H; discriminate H).
  destruct (Palette_init (firstn 32 (skipn paloffset bytes)) paloffset)
    as [pal | e].
  2: { exists []. split; [reflexivity |]. split; [cbn; lia | exact Nil]. }
  destruct (Nat.eq_dec (w * h * 32) 0) as [Z | NZ].
  { rewrite Z. exists []. split; [reflexivity |].
    split; [cbn; lia |]. rewrite <- Z. exact Nil. }
  rewrite range_count by lia.
  destruct (read_sprites_trace
              (map (fun k => offset + k * (w * h * 32)) (seq 0 count))
              (w * h * 32) (w, h) pal
              (mkFile bytes offset
                 [mkRead paloffset 32
                    (Nat.min 32 (length bytes - paloffset))]) [])
    as (r & f' & new & evs & E & _ & R & _ & _ & Le & Ev).
  rewrite E. cbn [snd]. rewrite R. cbn [reads app].
  exists evs. split; [reflexivity |].
  split; [rewrite length_map, length_seq in Le; exact Le |].
  intros i ev H. destruct (Ev i ev H) as (S1 & S2 & S3).
  cbn [pos contents] in S2, S3. rewrite S1. repeat split; assumption.
Qed.

Lemma search_read_log_witness :
  exists evs,
    ROM_search_reads (fun _ => Ok (repeat x00 72)) (mkROM EmptyString)
      32 (1, 1) 0 5
    = mkRead 0 32 32 :: evs
    /\ length evs <= 5
    /\ nth_error evs 1 = Some (mkRead 64 32 8).
Proof.
  destruct (@search_read_log (fun _ => Ok (repeat x00 72))
              (mkROM EmptyString) (repeat x00 72) 32 1 1 0 5)
    as (evs & E & L & _); [reflexivity |].
  exists evs. split; [exact E |]. split; [exact L |].
  vm_compute in E. inversion E. reflexivity.
Defined.

(** X9.  A palette asked for at the very end of the file is a palette
    without colours, and no sprite can be coloured with it: when the first
    sprite record is whole, the search raises IndexError. *)
Theorem search_palette_at_end (fs : filesystem) (self : ROM)
    (bytes : list byte) (offset w h count : nat) :
  fs (ROM.filename self) = Ok bytes -> 0 < w -> 0 < h -> 0 < count ->
  offset + w * h * 32 <= length bytes ->
  ROM_search fs self offset (w, h) (length bytes) count = Raise IndexError
  /\ nth_error
       (ROM_search_reads fs self offset (w, h) (length bytes) count) 0
     = Some (mkRead (length bytes) 32 0).
Proof.
  intros Hfile Hw Hh Hc Hrec. unfold ROM_search, ROM_search_reads.
  rewrite (@search_run_opened fs self bytes offset (w, h) (length bytes)
             count Hfile).
  rewrite (skipn_all2 bytes (le_n (length bytes))).
  cbn [firstn Palette_init fst snd].
  rewrite range_count by nia.
  destruct count as [| c]; [lia |].
  cbn [seq map read_sprites Nat.mul Nat.add].
  unfold read, slice. cbn [pos contents].
  unfold Sprite_init.
  rewrite (@Image_init_bad_index _ w h (mkPalette (length bytes) []) 0 0);
    [| exact Hw | exact Hh | | lia | lia | cbn; lia].
  - cbn [bind fst snd reads app nth_error search_except].
    rewrite Nat.sub_diag. split; reflexivity.
  - rewrite length_firstn, length_skipn. lia.
Qed.

Lemma search_palette_at_end_witness :
  ROM_search (fun _ => Ok (repeat x00 32)) (mkROM EmptyString)
    0 (1, 1) 32 2 = Raise IndexError.
Proof.
  apply (@search_palette_at_end (fun _ => Ok (repeat x00 32))
           (mkROM EmptyString) (repeat x00 32) 0 1 1 2);
    [reflexivity | lia | lia | lia | cbn; lia].
Defined.

(** ** [BookmarksForm] and [SearchForm] *)

(** X10.  When the ROM file does not exist, [load] still fills the form:
    every bookmark of positive size gets a sprite with its name, offset
    and size, a palette without colours at its palette offset and the
    dummy image, [self.sprites] holding them in the order of the
    dictionary; and the store holds, in the order that its sort function
    gives them, one row for each bookmark, labelled with the name above
    the offset in hexadecimal. *)
Theorem load_missing_rom (fs : filesystem) (rom : ROM)
    (self : BookmarksForm) (bookmarks : list (nat * bookmark)) :
  fs (ROM.filename rom) = Raise FileNotFoundError ->
  Forall (fun item : nat * bookmark =>
            0 < fst (snd (snd item)) /\ 0 < snd (snd (snd item)))
    bookmarks ->
  exists self',
    BookmarksForm_load fs rom self bookmarks = (None, self')
    /\ BookmarksForm.sprites self'
       = map (fun item : nat * bookmark =>
                mkSprite (fst (fst (snd item))) (fst item)
                  (snd (snd item))
                  (fst (snd (snd item)) * snd (snd (snd item)) * 32)
                  (mkPalette (snd (fst (snd item))) [])
                  (dummy_image (snd (snd item))))
           bookmarks
    /\ Permutation.Permutation (BookmarksForm.iconstore self')
         (map (fun item : nat * bookmark =>
                 mkRow (Image.pixbuf (dummy_image (snd (snd item))))
                   (fst (fst (snd item)) ++ newline
                    ++ hex (fst item))%string
                   (fst item))
            bookmarks).
Proof.
  intros Hfile Hpos. unfold BookmarksForm_load.
  assert (G : forall st,
    load_items fs rom bookmarks st
    = (None,
       mkBookmarksForm
         (BookmarksForm.sprites st
          ++ map (fun item : nat * bookmark =>
                    mkSprite (fst (fst (snd item))) (fst item)
                      (snd (snd item))
                      (fst (snd (snd item)) * snd (snd (snd item)) * 32)
                      (mkPalette (snd (fst (snd item))) [])
                      (dummy_image (snd (snd item))))
               bookmarks)
         (BookmarksForm.iconstore st
          ++ map (fun item : nat * bookmark =>
                    mkRow (Image.pixbuf (dummy_image (snd (snd item))))
                      (fst (fst (snd item)) ++ newline
                       ++ hex (fst item))%string
                      (fst item))
               bookmarks))).
  { induction Hpos as [| [off [[name pal] [w h]]] rest [Hw Hh] Hrest IH];
      intros st.
    - cbn [load_items map]. rewrite !app_nil_r. destruct st. reflexivity.
    - cbn [fst snd] in Hw, Hh. cbn [load_items].
      assert (E : load_sprite fs rom off (name, pal, (w, h))
                  = Ok (mkSprite EmptyString off (w, h) (w * h * 32)
                          (mkPalette pal []) (dummy_image (w, h)))).
      { unfold load_sprite, ROM_search, ROM_search_run.
        rewrite Hfile. cbn [search_except fst bind getitem nth_error
                            Palette_init].
        apply Sprite_init_dummy; assumption. }
      rewrite E, IH.
      cbn [BookmarksForm.sprites BookmarksForm.iconstore map fst snd
           set_name Sprite.offset Sprite.size Sprite.length Sprite.palette
           Sprite.image Sprite.name].
      rewrite <- !app_assoc. reflexivity. }
  eexists. split; [apply G |].
  split; [reflexivity | apply Permutation.Permutation_refl].
Qed.

Lemma load_missing_rom_witness :
  exists self',
    BookmarksForm_load (fun _ => Raise FileNotFoundError)
      (mkROM EmptyString) (mkBookmarksForm [] [])
      [(16, ("A"%string, 0, (2, 4)))]
    = (None, self')
    /\ map Sprite.name (BookmarksForm.sprites self') = ["A"%string]
    /\ map row_text (BookmarksForm.iconstore self')
       = [("A"%string ++ newline ++ hex 16)%string].
Proof.
  destruct (@load_missing_rom (fun _ => Raise FileNotFoundError)
              (mkROM EmptyString) (mkBookmarksForm [] [])
              [(16, ("A"%string, 0, (2, 4)))])
    as (self' & E & S & R); [reflexivity | |].
  - constructor; [cbn; lia | constructor].
  - exists self'. split; [exact E |]. split; [rewrite S; reflexivity |].
    cbn [map fst snd] in R.
    apply Permutation.Permutation_sym,
      Permutation.Permutation_length_1_inv in R.
    rewrite R. reflexivity.
Defined.

(** X11.  [load] also catches the IndexError of a decoding that fails:
    for a bookmark whose sprite record is cut short by the end of the
    file, the sprite is replaced by the one of dummy data (palette without
    colours, dummy image) instead of the error reaching the caller. *)
Theorem load_sprite_truncated (fs : filesystem) (rom : ROM)
    (bytes : list byte) (offset : nat) (name : string)
    (paloffset w h : nat) :
  fs (ROM.filename rom) = Ok bytes -> 0 < w -> 0 < h ->
  paloffset + 32 <= length bytes ->
  offset < length bytes -> length bytes < offset + w * h * 32 ->
  ROM_search fs rom offset (w, h) paloffset 1 = Raise IndexError
  /\ load_sprite fs rom offset (name, paloffset, (w, h))
     = Ok (mkSprite EmptyString offset (w, h) (w * h * 32)
             (mkPalette paloffset []) (dummy_image (w, h))).
Proof.
  intros Hfile Hw Hh Hpal Hlo Hhi.
  assert (Es : ROM_search fs rom offset (w, h) paloffset 1
               = Raise IndexError).
  { destruct (Palette_init_full (firstn 32 (skipn paloffset bytes))
                paloffset)
      as (pal & Ep & Hp16);
      [rewrite length_firstn, length_skipn; lia |].
    destruct (@read_sprites_short w h pal Hw Hh
                (map (fun j => offset + j * (w * h * 32)) (seq 0 1))
                (mkFile bytes offset
                   [mkRead paloffset 32
                      (Nat.min 32 (length bytes - paloffset))]) [] 0 Hp16)
      as (f' & sp & E); [cbn; lia | cbn [pos contents]; lia
                         | cbn [pos contents]; lia |].
    unfold ROM_search.
    rewrite (@search_run_sprites fs rom bytes offset w h paloffset 1
               Hfile pal Hw Hh Ep), E.
    reflexivity. }
  split; [exact Es |].
  unfold load_sprite. rewrite Es. cbn [bind Palette_init].
  apply Sprite_init_dummy; assumption.
Qed.

Lemma load_sprite_truncated_witness :
  load_sprite (fun _ => Ok (repeat x00 40)) (mkROM EmptyString) 32
    (EmptyString, 0, (1, 1))
  = Ok (mkSprite EmptyString 32 (1, 1) 32 (mkPalette 0 [])
          (dummy_image (1, 1))).
Proof.
  apply (@load_sprite_truncated (fun _ => Ok (repeat x00 40))
           (mkROM EmptyString) (repeat x00 40) 32 EmptyString 0 1 1);
    [reflexivity | lia | lia | cbn; lia | cbn; lia | cbn; lia].
Defined.

(** X12.  Loading and looking up: after a [load] that ran to its end on a
    dictionary (distinct offsets), the form holds one sprite and one row
    per bookmark, [get_sprite] at the offset of a bookmark returns a
    sprite with the name, offset and size of that bookmark, [get_name] of
    any sprite with that offset and size returns its name, and the store
    holds its row, labelled with the name above the offset in
    hexadecimal. *)
Theorem load_then_lookup (fs : filesystem) (rom : ROM)
    (self self' : BookmarksForm) (bookmarks : list (nat * bookmark)) :
  NoDup (map fst bookmarks) ->
  BookmarksForm_load fs rom self bookmarks = (None, self') ->
  length (BookmarksForm.sprites self') = length bookmarks
  /\ length (BookmarksForm.iconstore self') = length bookmarks
  /\ forall off name pal size,
       In (off, (name, pal, size)) bookmarks ->
       exists s,
         BookmarksForm_get_sprite self' off = Some s
         /\ Sprite.name s = name /\ Sprite.offset s = off
         /\ Sprite.size s = size
         /\ (forall s', Sprite.offset s' = off -> Sprite.size s' = size ->
               BookmarksForm_get_name self' s' = name)
         /\ In (mkRow (Image.pixbuf (Sprite.image s))
                  (name ++ newline ++ hex off)%string off)
              (BookmarksForm.iconstore self').
Proof.
  intros Hnd Hload. unfold BookmarksForm_load in Hload.
  destruct (load_items_appends fs rom bookmarks (mkBookmarksForm [] []))
    as (r & new & E & St & Ln).
  rewrite E in Hload. cbn [BookmarksForm.sprites BookmarksForm.iconstore
                           app] in Hload.
  inversion Hload; subst r self'. clear Hload.
  specialize (Ln eq_refl).
  rewrite firstn_all2 in St by lia.
  cbn [BookmarksForm.sprites BookmarksForm.iconstore].
  split; [exact Ln |]. split; [rewrite length_map; exact Ln |].
  intros off name pal size Hin.
  match type of St with
  | Forall2 ?R _ _ =>
      destruct (@find_bookmarked R (fun s => Sprite.offset s =? off) off
                  (name, pal, size) bookmarks new) as (s & Fs & Rs & Is);
        [| | exact St | exact Hnd | exact Hin |]
  end.
  { intros item s0 (So & _) Hp. apply Nat.eqb_eq in Hp. congruence. }
  { intros s0 (So & _). apply Nat.eqb_eq. exact So. }
  destruct Rs as (So & Sn & Ss). cbn [fst snd] in So, Sn, Ss.
  exists s. unfold BookmarksForm_get_sprite, BookmarksForm_get_name.
  cbn [BookmarksForm.sprites].
  split; [exact Fs |]. split; [exact Sn |]. split; [exact So |].
  split; [exact Ss |]. split.
  - intros s' So' Ss'.
    apply (@load_get_name fs rom self
             (mkBookmarksForm new
                (map (fun s0 => mkRow (Image.pixbuf (Sprite.image s0))
                                  (Sprite.name s0 ++ newline
                                   ++ hex (Sprite.offset s0))%string
                                  (Sprite.offset s0)) new))
             bookmarks off name pal size s' Hnd);
      [| exact Hin | exact So' | exact Ss'].
    unfold BookmarksForm_load. rewrite E. reflexivity.
  - apply in_map_iff. exists s. split; [| exact Is].
    rewrite Sn, So. reflexivity.
Qed.

Lemma load_then_lookup_witness :
  exists self' s,
    BookmarksForm_load (fun _ => Raise FileNotFoundError)
      (mkROM EmptyString) (mkBookmarksForm [] [])
      [(16, ("A"%string, 0, (2, 4)));
       (8, ("B"%string, 0, (1, 1)))]
    = (None, self')
    /\ BookmarksForm_get_sprite self' 8 = Some s
    /\ Sprite.name s = "B"%string.
Proof.
  remember (BookmarksForm_load (fun _ => Raise FileNotFoundError)
              (mkROM EmptyString) (mkBookmarksForm [] [])
              [(16, ("A"%string, 0, (2, 4)));
               (8, ("B"%string, 0, (1, 1)))]) as res eqn:E.
  assert (Hr : fst res = None) by (rewrite E; reflexivity).
  destruct res as [r self']. cbn [fst] in Hr. subst r.
  destruct (@load_then_lookup (fun _ => Raise FileNotFoundError)
              (mkROM EmptyString) (mkBookmarksForm [] []) self'
              [(16, ("A"%string, 0, (2, 4)));
               (8, ("B"%string, 0, (1, 1)))])
    as (_ & _ & H).
  - cbn [map fst]. repeat constructor; cbn; intuition discriminate.
  - symmetry. exact E.
  - destruct (H 8 ("B"%string) 0 (1, 1))
      as (s & Fs & Sn & _); [right; left; reflexivity |].
    exists self', s. repeat split; assumption.
Defined.

(** X13.  A search result that hits a bookmark is shown under the name of
    the bookmark: after a [load] that ran to its end on a dictionary, a
    search at the offset and with the size of a bookmark whose name is not
    empty labels its first result with the name, a line feed and the
    offset in hexadecimal; the store gets one row per sprite found. *)
Theorem search_labels_bookmark (fs : filesystem) (rom : ROM)
    (self0 bf : BookmarksForm) (bookmarks : list (nat * bookmark))
    (form form' : SearchForm) (name : string) (pal : nat) :
  NoDup (map fst bookmarks) ->
  BookmarksForm_load fs rom self0 bookmarks = (None, bf) ->
  In (SearchForm.offset form, (name, pal, SearchForm.size form))
    bookmarks ->
  name <> EmptyString ->
  SearchForm_search fs rom bf form = (None, form') ->
  length (SearchForm.iconstore form') = length (SearchForm.sprites form')
  /\ forall s, nth_error (SearchForm.sprites form') 0 = Some s ->
       nth_error (SearchForm.iconstore form') 0
       = Some (mkRow (Image.pixbuf (Sprite.image s))
                 (name ++ newline ++ hex (SearchForm.offset form))%string
                 (SearchForm.offset form)).
Proof.
  intros Hnd Hload Hin Hname Hs.
  pose proof (fun s' => @load_get_name fs rom self0 bf bookmarks
                          (SearchForm.offset form) name pal
                          (SearchForm.size form) s' Hnd Hload Hin) as Hgn.
  unfold SearchForm_search in Hs.
  destruct (ROM_search fs rom (SearchForm.offset form)
              (SearchForm.size form) (SearchForm.palette form)
              (SearchForm.qty form)) as [sprites | e] eqn:E;
    [| discriminate Hs].
  inversion Hs; subst form'. clear Hs.
  cbn [SearchForm.iconstore SearchForm.sprites].
  split; [apply length_map |].
  intros s Hn.
  destruct (@search_found_stamped fs rom _ _ _ _ sprites E 0 s Hn)
    as (So & Ss & _).
  rewrite Nat.add_0_r in So.
  rewrite nth_error_map, Hn. cbn [option_map]. f_equal.
  unfold search_row. rewrite (Hgn s So Ss), So.
  destruct name; [contradiction | reflexivity].
Qed.

Lemma search_labels_bookmark_witness :
  exists bf form',
    BookmarksForm_load (fun _ => Ok (repeat x00 64)) (mkROM EmptyString)
      (mkBookmarksForm [] []) [(32, ("A"%string, 0, (1, 1)))]
    = (None, bf)
    /\ SearchForm_search (fun _ => Ok (repeat x00 64)) (mkROM EmptyString)
         bf (mkSearchForm 32 0 (1, 1) 1 [] [])
       = (None, form')
    /\ option_map row_text (nth_error (SearchForm.iconstore form') 0)
       = Some ("A" ++ newline ++ hex 32)%string.
Proof.
  remember (BookmarksForm_load (fun _ => Ok (repeat x00 64))
              (mkROM EmptyString) (mkBookmarksForm [] [])
              [(32, ("A"%string, 0, (1, 1)))]) as res eqn:E.
  assert (Hr : fst res = None) by (rewrite E; vm_compute; reflexivity).
  destruct res as [r bf]. cbn [fst] in Hr. subst r. symmetry in E.
  destruct (ROM_search (fun _ => Ok (repeat x00 64)) (mkROM EmptyString)
              32 (1, 1) 0 1) as [sprites | e] eqn:Es;
    [| vm_compute in Es; discriminate Es].
  assert (Hs : exists s, nth_error sprites 0 = Some s).
  { vm_compute in Es. inversion Es. eexists. reflexivity. }
  destruct Hs as (s & Hs).
  assert (Ef : SearchForm_search (fun _ => Ok (repeat x00 64))
                 (mkROM EmptyString) bf (mkSearchForm 32 0 (1, 1) 1 [] [])
               = (None,
                  mkSearchForm 32 0 (1, 1) 1 (map (search_row bf) sprites)
                    sprites)).
  { unfold SearchForm_search.
    cbn [SearchForm.offset SearchForm.size SearchForm.palette
         SearchForm.qty SearchForm.sprites].
    rewrite Es. reflexivity. }
  exists bf, (mkSearchForm 32 0 (1, 1) 1 (map (search_row bf) sprites)
                sprites).
  split; [reflexivity |]. split; [exact Ef |].
  destruct (@search_labels_bookmark (fun _ => Ok (repeat x00 64))
              (mkROM EmptyString) (mkBookmarksForm [] []) bf
              [(32, ("A"%string, 0, (1, 1)))]
              (mkSearchForm 32 0 (1, 1) 1 [] [])
              (mkSearchForm 32 0 (1, 1) 1 (map (search_row bf) sprites)
                 sprites) "A"%string 0) as (_ & H).
  - cbn [map fst]. constructor; [intros []| constructor].
  - exact E.
  - left. reflexivity.
  - discriminate.
  - exact Ef.
  - rewrite (H s Hs). reflexivity.
Defined.

(** X14.  On rows whose sprites are in the form, [sort] orders by length
    and then by offset: it answers -1 exactly when the first sprite is
    shorter, or as long with the smaller offset, and 1 otherwise, never 0;
    so for two different offsets the answers in the two directions are
    opposite, the answers are transitive, and a row compared with itself
    is answered 1. *)
Theorem sort_orders_length_then_offset (self : BookmarksForm)
    (a b c : nat) (sa sb sc : Sprite) :
  BookmarksForm_get_sprite self a = Some sa ->
  BookmarksForm_get_sprite self b = Some sb ->
  BookmarksForm_get_sprite self c = Some sc ->
  (BookmarksForm_sort self a b = Ok (-1)%Z
   \/ BookmarksForm_sort self a b = Ok 1%Z)
  /\ (BookmarksForm_sort self a b = Ok (-1)%Z
      <-> Sprite.length sa < Sprite.length sb
          \/ (Sprite.length sa = Sprite.length sb /\ a < b))
  /\ (a <> b ->
      (BookmarksForm_sort self a b = Ok (-1)%Z
       <-> BookmarksForm_sort self b a = Ok 1%Z))
  /\ (BookmarksForm_sort self a b = Ok (-1)%Z ->
      BookmarksForm_sort self b c = Ok (-1)%Z ->
      BookmarksForm_sort self a c = Ok (-1)%Z)
  /\ BookmarksForm_sort self a a = Ok 1%Z.
Proof.
  intros Ha Hb Hc.
  rewrite (sort_found _ _ _ Ha Hb), (sort_found _ _ _ Hb Ha),
          (sort_found _ _ _ Hb Hc), (sort_found _ _ _ Ha Hc),
          (sort_found _ _ _ Ha Ha).
  generalize (Sprite.length sa) (Sprite.length sb) (Sprite.length sc).
  intros la lb lc.
  repeat split;
    repeat match goal with
           | |- context [?x <? ?y] =>
               destruct (Nat.ltb_spec x y); try lia
           | |- context [?x =? ?y] =>
               destruct (Nat.eqb_spec x y); try lia
           end;
    intros;
    repeat match goal with
           | H : Ok _ = Ok _ |- _ => inversion H; clear H
           | H : _ \/ _ |- _ => destruct H
           end;
    try reflexivity; try discriminate; try lia; auto.
Qed.

Lemma sort_orders_length_then_offset_witness :
  BookmarksForm_sort
    (mkBookmarksForm
       [mkSprite EmptyString 8 (1, 2) 64 (mkPalette 0 []) (dummy_image (1, 2));
        mkSprite EmptyString 4 (1, 2) 64 (mkPalette 0 []) (dummy_image (1, 2));
        mkSprite EmptyString 9 (1, 1) 32 (mkPalette 0 []) (dummy_image (1, 1))]
       []) 9 4
  = Ok (-1)%Z
  /\ BookmarksForm_sort
       (mkBookmarksForm
          [mkSprite EmptyString 8 (1, 2) 64 (mkPalette 0 [])
             (dummy_image (1, 2));
           mkSprite EmptyString 4 (1, 2) 64 (mkPalette 0 [])
             (dummy_image (1, 2));
           mkSprite EmptyString 9 (1, 1) 32 (mkPalette 0 [])
             (dummy_image (1, 1))]
          []) 9 8
     = Ok (-1)%Z.
Proof.
  destruct (@sort_orders_length_then_offset
              (mkBookmarksForm
                 [mkSprite EmptyString 8 (1, 2) 64 (mkPalette 0 [])
                    (dummy_image (1, 2));
                  mkSprite EmptyString 4 (1, 2) 64 (mkPalette 0 [])
                    (dummy_image (1, 2));
                  mkSprite EmptyString 9 (1, 1) 32 (mkPalette 0 [])
                    (dummy_image (1, 1))]
                 [])
              9 4 8
              (mkSprite EmptyString 9 (1, 1) 32 (mkPalette 0 [])
                 (dummy_image (1, 1)))
              (mkSprite EmptyString 4 (1, 2) 64 (mkPalette 0 [])
                 (dummy_image (1, 2)))
              (mkSprite EmptyString 8 (1, 2) 64 (mkPalette 0 [])
                 (dummy_image (1, 2))))
    as (_ & H1 & _ & H3 & _); [reflexivity | reflexivity | reflexivity |].
  assert (Hab : BookmarksForm_sort
                  (mkBookmarksForm
                     [mkSprite EmptyString 8 (1, 2) 64 (mkPalette 0 [])
                        (dummy_image (1, 2));
                      mkSprite EmptyString 4 (1, 2) 64 (mkPalette 0 [])
                        (dummy_image (1, 2));
                      mkSprite EmptyString 9 (1, 1) 32 (mkPalette 0 [])
                        (dummy_image (1, 1))]
                     []) 9 4 = Ok (-1)%Z)
    by (apply H1; left; cbn; lia).
  split; [exact Hab |]. apply H3; [exact Hab | reflexivity].
Defined.

(** X15.  [sort] on a row whose offset has no sprite in the form: the
    lookup gives None and reading its length raises AttributeError; this
    is the only way [sort] fails, and it happens exactly when one of the
    two offsets is the offset of no sprite of the form. *)
Theorem sort_unknown_offset (self : BookmarksForm) (a b : nat) :
  (BookmarksForm_sort self a b = Raise AttributeError
   <-> (forall s, In s (BookmarksForm.sprites self) ->
          Sprite.offset s <> a)
       \/ (forall s, In s (BookmarksForm.sprites self) ->
             Sprite.offset s <> b))
  /\ (forall e, BookmarksForm_sort self a b = Raise e ->
        e = AttributeError).
Proof.
  assert (None_iff : forall o,
    BookmarksForm_get_sprite self o = None
    <-> (forall s, In s (BookmarksForm.sprites self) ->
           Sprite.offset s <> o)).
  { intros o. unfold BookmarksForm_get_sprite. split.
    - intros H s Hin Heq. apply (find_none _ _ H) in Hin.
      apply Nat.eqb_neq in Hin. contradiction.
    - intros H.
      destruct (find (fun sprite => Sprite.offset sprite =? o)
                  (BookmarksForm.sprites self)) as [s |] eqn:F;
        [| reflexivity].
      apply find_some in F. destruct F as [Hin Heq].
      apply Nat.eqb_eq in Heq. destruct (H s Hin Heq). }
  rewrite <- !None_iff.
  destruct (BookmarksForm_get_sprite self a) as [sa |] eqn:Ha;
    destruct (BookmarksForm_get_sprite self b) as [sb |] eqn:Hb.
  - rewrite (sort_found _ _ _ Ha Hb). split.
    + split; [intros H; discriminate H | intros [H | H]; discriminate H].
    + intros e H. discriminate H.
  - unfold BookmarksForm_sort. rewrite Ha, Hb. cbn [on_object bind].
    split; [split; [intros _; right; reflexivity | reflexivity] |].
    intros e H. inversion H. reflexivity.
  - unfold BookmarksForm_sort. rewrite Ha, Hb. cbn [on_object bind].
    split; [split; [intros _; left; reflexivity | reflexivity] |].
    intros e H. inversion H. reflexivity.
  - unfold BookmarksForm_sort. rewrite Ha, Hb. cbn [on_object bind].
    split; [split; [intros _; left; reflexivity | reflexivity] |].
    intros e H. inversion H. reflexivity.
Qed.

(** X16.  [load] only replaces what IndexError reports.  When the ROM
    cannot be opened for another reason than its absence, the exception
    of [open] leaves [search] and then [load] at the first bookmark, and
    the form stays empty. *)
Theorem load_unreadable_rom (fs : filesystem) (rom : ROM)
    (self : BookmarksForm) (item : nat * bookmark)
    (rest : list (nat * bookmark)) (e : exn) :
  fs (ROM.filename rom) = Raise e ->
  e <> FileNotFoundError -> e <> IndexError ->
  BookmarksForm_load fs rom self (item :: rest)
  = (Some e, mkBookmarksForm [] []).
Proof.
  intros Hfile Hnf Hni. destruct item as [off [[name pal] size]].
  unfold BookmarksForm_load. cbn [load_items].
  unfold load_sprite, ROM_search, ROM_search_run. rewrite Hfile.
  destruct e; try contradiction; reflexivity.
Qed.

Lemma load_unreadable_rom_witness :
  BookmarksForm_load (fun _ => Raise PermissionError) (mkROM EmptyString)
    (mkBookmarksForm [] []) [(16, (EmptyString, 0, (2, 4)))]
  = (Some PermissionError, mkBookmarksForm [] []).
Proof.
  apply (@load_unreadable_rom (fun _ => Raise PermissionError)
           (mkROM EmptyString) (mkBookmarksForm [] [])
           (16, (EmptyString, 0, (2, 4))) [] PermissionError);
    [reflexivity | discriminate | discriminate].
Defined.
